(** * CPISync: the synchronization-method base class, its statistics and the
      GenSync orchestrator

    A shallow embedding of [include/CPISync/Aux/SyncMethod.h] and of the
    parts of [include/GenSync.h] that the specification talks about, followed
    by the properties of the specification that were checked against it.

    Conventions of the embedding:
    - the target is an LP64 platform: [long] and [size_t] are 64 bits wide;
      [double] is IEEE 754 binary64, modelled by the kernel's primitive
      floats, so every [+=] on a counter is the rounded binary64 addition;
    - a [shared_ptr<DataObject>] is its stored pointer: [operator==] on two
      shared pointers compares exactly that;
    - a member function that mutates [*this] returns the new object next to
      its C++ return value;
    - [std::chrono::high_resolution_clock::now()] reads a clock that is
      passed explicitly: every call consumes one reading. *)

From Stdlib Require Import ZArith Lia PrimFloat FloatOps FloatAxioms SpecFloat.
From stdpp Require Import base functions list list_numbers gmap strings.

Local Open Scope Z_scope.

(** ** The C++ library as far as the headers use it *)

Module Cxx.

(** *** Integer conversions (LP64) *)

Definition wrap_unsigned (w z : Z) : Z := z mod 2 ^ w.

Definition wrap_signed (w z : Z) : Z :=
  (z + 2 ^ (w - 1)) mod 2 ^ w - 2 ^ (w - 1).

(** Conversion of an integer value to [long int]. *)
Definition to_long (z : Z) : Z := wrap_signed 64 z.

(** Conversion to [size_t] (= [unsigned long]), as the usual arithmetic
    conversions do to the [long] operand of a mixed comparison. *)
Definition to_size_t (z : Z) : Z := wrap_unsigned 64 z.

(** [vector::size()]: a [size_t]. *)
Definition vector_size {A} (v : list A) : Z := Z.of_nat (length v).

(** *** Shared pointers *)

(** The address of a [DataObject]; [0] is the null pointer. *)
Definition address := N.

Record shared_ptr := SharedPtr { get : address }.

#[global] Instance shared_ptr_eq_dec : EqDecision shared_ptr.
Proof. solve_decision. Defined.

(** An empty [shared_ptr], also the state a moved-from one is left in. *)
Definition null : shared_ptr := SharedPtr 0%N.

(** *** <algorithm>: [std::find], [std::remove] and [vector::erase] *)

(** [std::find(begin, end, value) - begin]: the index of the first element
    equal to [value], the length when there is none. *)
Fixpoint find (v : list shared_ptr) (value : shared_ptr) : nat :=
  match v with
  | [] => 0%nat
  | x :: v' => if decide (x = value) then 0%nat else S (find v' value)
  end.

(** One iteration of the compaction loop of [std::remove]: an element
    that differs from [value] is move-assigned to the slot [result], and
    [result] advances. [result < first] throughout, so the move leaves the
    slot [first] empty. *)
Definition remove_step (value : shared_ptr)
    (st : list shared_ptr * nat) (first : nat) : list shared_ptr * nat :=
  let '(v, result) := st in
  match v !! first with
  | Some x =>
      if decide (x = value) then (v, result)
      else (<[first := null]> (<[result := x]> v), S result)
  | None => (v, result)
  end.

(** [std::remove(begin, end, value)]: the vector after the call and the
    index of the returned iterator (the new logical end). *)
Definition remove (v : list shared_ptr) (value : shared_ptr)
    : list shared_ptr * nat :=
  let first := find v value in
  if decide (first = length v) then (v, first)
  else foldl (remove_step value) (v, first)
             (seq (S first) (length v - S first)).

(** [v.erase(first, last)] on iterator indices. *)
Definition erase {A} (v : list A) (first last : nat) : list A :=
  take first v ++ drop last v.

(** *** [double] *)

Definition double := float.

(** Conversion of a signed integer to [double] (round to nearest even). *)
Definition of_long (z : Z) : double :=
  SF2Prim (binary_normalize prec emax z 0 false).

(** Rounding of a binary64 value to an integral value: the magnitude
    [m * 2^e] with [e < 0] is split into its integer part and a remainder;
    a negative value with a remainder moves one further from zero when
    rounding towards minus infinity. Zeros, infinities, NaN and values
    with [0 <= e] are integral (or special) already. *)
Definition round_integral (towards_minus_infinity : bool) (x : double) : double :=
  match Prim2SF x with
  | S754_finite s m e =>
      if 0 <=? e then x
      else
        let q := Z.shiftr (Z.pos m) (- e) in
        let exact := Z.pos m =? Z.shiftl q (- e) in
        let mag := if s && towards_minus_infinity && negb exact then q + 1 else q in
        if s then PrimFloat.opp (of_long mag) else of_long mag
  | _ => x
  end.

(** <cmath> [floor]. *)
Definition floor (x : double) : double := round_integral true x.

(** *** <chrono> *)

(** A [high_resolution_clock::time_point]: nanoseconds since the epoch
    (a 64-bit count, far from overflowing). *)
Definition time_point := Z.

(** The clock: the readings it will give, and how many were consumed. *)
Record Clock := MkClock { reading : nat → time_point; ticks : nat }.

Definition now (c : Clock) : time_point * Clock :=
  (reading c (ticks c), MkClock (reading c) (S (ticks c))).

(** [duration_cast<microseconds>(d).count()] of a nanosecond duration:
    integer division, which truncates. *)
Definition duration_cast_microseconds (d : Z) : Z := d ÷ 1000.

(** The literal [1e-6] (its nearest binary64 value). *)
Definition micro : double := 0x1.0c6f7a0b5ed8dp-20%float.

End Cxx.

(** ** [SyncMethod::SyncStats] *)

Module SyncStats.

Import Cxx.

(** [enum StatID { NONE=0, XMIT, RECV, COMM_TIME, IDLE_TIME, COMP_TIME, ALL }] *)
Inductive StatID := NONE | XMIT | RECV | COMM_TIME | IDLE_TIME | COMP_TIME | ALL.

#[global] Instance StatID_eq_dec : EqDecision StatID.
Proof. solve_decision. Defined.

(** The unary [operator+]: [static_cast<int>(ID)]. *)
Definition to_int (ID : StatID) : Z :=
  match ID with
  | NONE => 0 | XMIT => 1 | RECV => 2 | COMM_TIME => 3
  | IDLE_TIME => 4 | COMP_TIME => 5 | ALL => 6
  end.

(** The two arrays have [(+ALL)+1] slots each; a [StatID] converts to an
    index in range, so they are total maps read at the indices [0..6]. *)
Record t := Mk {
  dataArray : Z → double;
  startTimeArray : Z → time_point
}.

(** The indices visited by [for (int ii = (+NONE)+1; ii < +ALL; ii++)];
    the loops written with [ii != +ALL] visit the same ones. *)
Definition stat_range : list Z :=
  seqZ (to_int NONE + 1) (to_int ALL - (to_int NONE + 1)).

(** The constructor sets the five counters and leaves the slots [0] and
    [+ALL] as they are found in memory ([uninit]); the start times are
    value-initialised to the clock's epoch. *)
Definition construct (uninit : Z → double) : t :=
  Mk (foldl (λ a ii, <[ii := 0%float]> a) uninit stat_range) (λ _, 0).

Definition reset (s : t) (statID : StatID) : t :=
  if decide (statID ≠ ALL)
  then Mk (<[to_int statID := 0%float]> (dataArray s)) (startTimeArray s)
  else Mk (foldl (λ a ii, <[ii := 0%float]> a) (dataArray s) stat_range)
          (startTimeArray s).

Definition getStat (s : t) (statID : StatID) : double :=
  dataArray s (to_int statID).

(** The body of the loop of [increment] at index [ii]. *)
Definition increment_at (statID : StatID) (incr : double)
    (a : Z → double) (ii : Z) : Z → double :=
  if bool_decide (ii = to_int statID) || bool_decide (statID = ALL)
  then <[ii := (a ii +
                (if bool_decide (ii = to_int XMIT) || bool_decide (ii = to_int RECV)
                 then floor incr else incr))%float]> a
  else a.

Definition increment (s : t) (statID : StatID) (incr : double) : t :=
  Mk (foldl (increment_at statID incr) (dataArray s) stat_range)
     (startTimeArray s).

(** One assignment [startTimeArray[ii] = high_resolution_clock::now()]. *)
Definition start_at (st : (Z → time_point) * Clock) (ii : Z)
    : (Z → time_point) * Clock :=
  let '(tp, clk) := now st.2 in (<[ii := tp]> st.1, clk).

Definition timerStart (s : t) (timerID : StatID) (clk : Clock) : t * Clock :=
  if decide (timerID ≠ ALL)
  then let '(a, clk') := start_at (startTimeArray s, clk) (to_int timerID) in
       (Mk (dataArray s) a, clk')
  else let '(a, clk') := foldl start_at (startTimeArray s, clk) stat_range in
       (Mk (dataArray s) a, clk').

(** [duration_cast<microseconds>(tp - start).count()]: the whole
    microseconds from the start recorded in a slot to a reading [tp]. *)
Definition elapsed_microseconds (start tp : time_point) : Z :=
  duration_cast_microseconds (tp - start).

(** The same in seconds, as it is added to a counter: the count converted
    to [double] and multiplied by [1e-6]. *)
Definition elapsed (start tp : time_point) : double :=
  (of_long (elapsed_microseconds start tp) * micro)%float.

(** One update [dataArray[ii] += elapsed since startTimeArray[ii]]. *)
Definition end_at (starts : Z → time_point)
    (st : (Z → double) * Clock) (ii : Z) : (Z → double) * Clock :=
  let '(tp, clk) := now st.2 in
  (<[ii := (st.1 ii + elapsed (starts ii) tp)%float]> st.1, clk).

Definition timerEnd (s : t) (timerID : StatID) (clk : Clock) : t * Clock :=
  if decide (timerID ≠ ALL)
  then let '(a, clk') := end_at (startTimeArray s) (dataArray s, clk) (to_int timerID) in
       (Mk a (startTimeArray s), clk')
  else let '(a, clk') := foldl (end_at (startTimeArray s)) (dataArray s, clk) stat_range in
       (Mk a (startTimeArray s), clk').

Definition totalTime (s : t) : double :=
  (dataArray s (to_int COMM_TIME) + dataArray s (to_int IDLE_TIME)
   + dataArray s (to_int COMP_TIME))%float.

(** *** Call sequences on one [SyncStats] object *)

Inductive call :=
| CallReset (statID : StatID)
| CallIncrement (statID : StatID) (incr : double)
| CallTimerStart (timerID : StatID)
| CallTimerEnd (timerID : StatID).

Definition step (w : t * Clock) (c : call) : t * Clock :=
  match c with
  | CallReset statID => (reset w.1 statID, w.2)
  | CallIncrement statID incr => (increment w.1 statID incr, w.2)
  | CallTimerStart timerID => timerStart w.1 timerID w.2
  | CallTimerEnd timerID => timerEnd w.1 timerID w.2
  end.

(** The states after the first, the second, ... call of a sequence. *)
Fixpoint states_after (w : t * Clock) (calls : list call) : list (t * Clock) :=
  match calls with
  | [] => []
  | c :: calls' => step w c :: states_after (step w c) calls'
  end.

End SyncStats.

(** ** [SyncMethod] *)

Module SyncMethod.

Import Cxx.

(** The data members the header defines: the statistics of the last sync
    and the vector of element pointers. *)
Record t := Mk {
  mySyncStats : SyncStats.t;
  elements : list shared_ptr
}.

(** What a [SyncClient] or [SyncServer] call leaves behind: its return
    value, the object, the communicant it was given and the two lists that
    were passed by reference. *)
Record SyncResult (Communicant : Type) := MkSyncResult {
  ret : bool;
  self : t;
  commSync : Communicant;
  selfMinusOther : list shared_ptr;
  otherMinusSelf : list shared_ptr
}.
Arguments MkSyncResult {Communicant}.
Arguments ret {Communicant}.
Arguments self {Communicant}.
Arguments commSync {Communicant}.
Arguments selfMinusOther {Communicant}.
Arguments otherMinusSelf {Communicant}.

Section Sync.

(** [Communicant.h] is outside the headers modelled here: the class and
    its member [resetCommCounters] are parameters of the two functions. *)
Context {Communicant : Type}.
Variable resetCommCounters : Communicant → Communicant.

Definition SyncClient (sm : t) (comm : Communicant)
    (selfMinusOther otherMinusSelf : list shared_ptr) : SyncResult Communicant :=
  let stats := SyncStats.reset (mySyncStats sm) SyncStats.ALL in
  let comm' := resetCommCounters comm in
  MkSyncResult true (Mk stats (elements sm)) comm' selfMinusOther otherMinusSelf.

Definition SyncServer (sm : t) (comm : Communicant)
    (selfMinusOther otherMinusSelf : list shared_ptr) : SyncResult Communicant :=
  let stats := SyncStats.reset (mySyncStats sm) SyncStats.ALL in
  let comm' := resetCommCounters comm in
  MkSyncResult true (Mk stats (elements sm)) comm' selfMinusOther otherMinusSelf.

End Sync.

Definition addElem (sm : t) (datum : shared_ptr) : bool * t :=
  (true, Mk (mySyncStats sm) (elements sm ++ [datum])).

Definition delElem (sm : t) (datum : shared_ptr) : bool * t :=
  let before := to_long (vector_size (elements sm)) in
  let '(v, new_end) := remove (elements sm) datum in
  let elements' := erase v new_end (length v) in
  (bool_decide (to_size_t before > vector_size elements'),
   Mk (mySyncStats sm) elements').

Definition getNumElem (sm : t) : Z := to_long (vector_size (elements sm)).

(** The template [postProcessing_SET<T>]: [add] and [del] are the two
    member-function pointers, [pGenSync] the object they are called on
    (its state before and after). The range-for loop over
    [otherMinusSelf] calls [add] on each element; the hooks return. *)
Fixpoint postProcessing_SET {T : Type}
    (otherMinusSelf myData : list shared_ptr)
    (add : T → shared_ptr → T) (del : T → shared_ptr → bool * T)
    (pGenSync : T) : T :=
  match otherMinusSelf with
  | [] => pGenSync
  | elem :: rest =>
      postProcessing_SET rest myData add del (add pGenSync elem)
  end.

(** *** The scoped timer *)

(** A [TimerWarp] holds a reference to a [SyncStats] and the id of its
    timer. [localTimer] is the only place one is made, always on the
    object's own [mySyncStats], so the reference is kept implicit: the
    constructor and the destructor act on the [SyncStats] they are given. *)
Record TimerWarp := MkTimerWarp { timerID : SyncStats.StatID }.

Definition TimerWarp_construct (stats : SyncStats.t) (_timerID : SyncStats.StatID)
    (clk : Clock) : TimerWarp * (SyncStats.t * Clock) :=
  (MkTimerWarp _timerID, SyncStats.timerStart stats _timerID clk).

Definition TimerWarp_destruct (h : TimerWarp) (stats : SyncStats.t)
    (clk : Clock) : SyncStats.t * Clock :=
  SyncStats.timerEnd stats (timerID h) clk.

(** The returned object is constructed in place (copy elision). *)
Definition localTimer (sm : t) (timerID : SyncStats.StatID) (clk : Clock)
    : TimerWarp * (t * Clock) :=
  let '(h, (stats, clk')) := TimerWarp_construct (mySyncStats sm) timerID clk in
  (h, (Mk stats (elements sm), clk')).

(** How a block of code is left: by running to its end or through an
    exception. *)
Inductive exit (A E : Type) :=
| Completed (a : A)
| Thrown (e : E).
Arguments Completed {A E}.
Arguments Thrown {A E}.

(** Code that runs on a [SyncMethod] object and the clock. *)
Definition block (A E : Type) : Type := t * Clock → exit A E * (t * Clock).

(** The use the header documents for [localTimer]:
    [{ auto _handler = localTimer(timerID); body }]. The handler is an
    automatic object of the nested block: it is destroyed when the block is
    left, at its end or while an exception propagates out of it. *)
Definition timed_block {A E : Type} (timerID : SyncStats.StatID)
    (body : block A E) : block A E :=
  λ w,
    let '(_handler, w1) := localTimer w.1 timerID w.2 in
    let '(r, w2) := body w1 in
    let '(stats, clk) := TimerWarp_destruct _handler (mySyncStats w2.1) w2.2 in
    (r, (Mk stats (elements w2.1), clk)).

(** The worlds a timed block goes through: the one its body starts in
    (the handler constructed), and the one the body leaves behind, in
    which the handler is destroyed. *)
Definition body_entry (timerID : SyncStats.StatID) (w : t * Clock) : t * Clock :=
  (localTimer w.1 timerID w.2).2.

Definition body_exit {A E : Type} (timerID : SyncStats.StatID)
    (body : block A E) (w : t * Clock) : exit A E * (t * Clock) :=
  body (body_entry timerID w).

(** The reading the next call of [now] gives. *)
Definition next_reading (clk : Clock) : time_point := reading clk (ticks clk).

(** *** Hooks that record their calls *)

(** To observe the calls [postProcessing_SET] makes, the template is
    instantiated with an object that carries a log next to its state. *)
Inductive hook_call :=
| AddCalled (elem : shared_ptr)
| DelCalled (elem : shared_ptr).

Definition logged_add {T : Type} (add : T → shared_ptr → T)
    (p : T * list hook_call) (elem : shared_ptr) : T * list hook_call :=
  (add p.1 elem, p.2 ++ [AddCalled elem]).

Definition logged_del {T : Type} (del : T → shared_ptr → bool * T)
    (p : T * list hook_call) (elem : shared_ptr) : bool * (T * list hook_call) :=
  ((del p.1 elem).1, ((del p.1 elem).2, p.2 ++ [DelCalled elem])).

End SyncMethod.

(** ** [GenSync] *)

Module GenSync.

Import Cxx.

(** A raw [DataObject*]. *)
Definition pointer := address.

(** The failure of an operation the orchestrator does not support. *)
Inductive error := UnsupportedOperationError.

Section Orchestrator.

(** The communicants and the synchronization methods are held through
    pointers to their base classes; the session a method runs against a
    communicant is the virtual [SyncClient] of the method's dynamic type,
    given with the object, the communicant and the two lists it may
    change. *)
Context {Communicant SyncAgent : Type}.
Variable SyncClient :
  SyncAgent → Communicant → list pointer → list pointer →
  bool * (SyncAgent * Communicant * list pointer * list pointer).

(** The fields declared in GenSync.h (the output file apart). *)
Record t := Mk {
  myData : list pointer;
  myCommVec : list Communicant;
  mySyncVec : list SyncAgent
}.

(** Modelled from the spec: [GenSync::delElem] is declared in GenSync.h
    ("Not currently implemented") and defined in GenSync.cpp, outside the
    headers modelled here. The spec, sections 4.5 and 7: the operation
    is unsupported, always fails or does nothing, and callers must not rely
    on it removing anything. *)
Definition delElem (gs : t) (newDatum : pointer) : (error + unit) * t :=
  (inl UnsupportedOperationError, gs).

(** Modelled from the spec: [GenSync::dumpElements] is defined in
    GenSync.cpp; per the header it returns the list of pointers to the
    stored elements, per the spec the ordered sequence of items. *)
Definition dumpElements (gs : t) : list pointer := myData gs.

(** The progress of the loop of [startSync]: the conjunction of the
    outcomes so far, the method, the communicants already handled (as the
    sessions left them), the two difference lists, and (for the statements
    below) the sessions that were started, each with its outcome. *)
Record Progress := MkProgress {
  syncSuccess : bool;
  agent : SyncAgent;
  handled : list Communicant;
  selfMinusOther : list pointer;
  otherMinusSelf : list pointer;
  sessions : list (Communicant * bool)
}.

(** Modelled from the spec: [GenSync::startSync] is defined in
    GenSync.cpp, outside the headers modelled here. The spec, section 4.5:
    for each registered peer, in registration order, a client-role session
    with the strategy at the given index is initiated; a failed session does
    not abort the sessions with the subsequent peers, and the overall result
    is the logical AND of all outcomes. *)
Fixpoint startSync_loop (todo : list Communicant) (p : Progress) : Progress :=
  match todo with
  | [] => p
  | comm :: rest =>
      let '(ok, (agent', comm', smo, oms)) :=
        SyncClient (agent p) comm (selfMinusOther p) (otherMinusSelf p) in
      startSync_loop rest
        (MkProgress (syncSuccess p && ok) agent' (handled p ++ [comm'])
                    smo oms (sessions p ++ [(comm, ok)]))
  end.

(** Modelled from the spec: see [startSync_loop]. An index outside the
    vector of methods selects nothing: the spec gives such a call no
    meaning. *)
Definition startSync (gs : t) (sync_num : Z) : option (bool * t * Progress) :=
  if decide (0 ≤ sync_num) then
    match mySyncVec gs !! Z.to_nat sync_num with
    | Some syncAgent =>
        let p := startSync_loop (myCommVec gs)
                   (MkProgress true syncAgent [] [] [] []) in
        Some (syncSuccess p,
              Mk (myData gs) (handled p)
                 (<[Z.to_nat sync_num := agent p]> (mySyncVec gs)),
              p)
    | None => None
    end
  else None.

End Orchestrator.

Arguments t : clear implicits.

End GenSync.

(** ** The specification's wording, where it is compared with the code *)

Module Spec.

Import Cxx.

(** "removes the first stored element equal to [item]". *)
Fixpoint remove_first (item : shared_ptr) (store : list shared_ptr)
    : list shared_ptr :=
  match store with
  | [] => []
  | x :: store' =>
      if decide (x = item) then store' else x :: remove_first item store'
  end.

(** The number of occurrences of an item in a store. *)
Definition multiplicity (item : shared_ptr) (store : list shared_ptr) : nat :=
  length (filter (λ x, x = item) store).

(** "a store with unique multiplicity": the item occurs at most once. *)
Definition unique_multiplicity (item : shared_ptr) (store : list shared_ptr) : Prop :=
  (multiplicity item store ≤ 1)%nat.

(** "truncated toward zero". *)
Definition trunc (x : double) : double := round_integral false x.

(** "[increment(id, amount)] adds [amount] to one counter, or to all
    counters if [id == ALL]; for the two byte counters the increment is
    truncated toward zero": the value of counter [ii] afterwards. *)
Definition incremented (a : Z → double) (id : SyncStats.StatID)
    (amount : double) (ii : Z) : double :=
  if bool_decide (ii ∈ SyncStats.stat_range)
     && (bool_decide (ii = SyncStats.to_int id) || bool_decide (id = SyncStats.ALL))
  then (a ii +
        (if bool_decide (ii = SyncStats.to_int SyncStats.XMIT)
            || bool_decide (ii = SyncStats.to_int SyncStats.RECV)
         then trunc amount else amount))%float
  else a ii.

End Spec.

(** ** Concrete objects used in the examples below *)

Module Examples.

Import Cxx.

Definition p1 : shared_ptr := SharedPtr 1%N.
Definition p2 : shared_ptr := SharedPtr 2%N.
Definition p3 : shared_ptr := SharedPtr 3%N.

(** A freshly constructed [SyncStats] (the two unused slots read zero). *)
Definition stats0 : SyncStats.t := SyncStats.construct (λ _, 0%float).

(** A sync method holding the given pointers. *)
Definition holding (l : list shared_ptr) : SyncMethod.t := SyncMethod.Mk stats0 l.

(** A communicant reduced to its two byte counters, and the reset that
    puts both to zero. *)
Record ByteCounters := MkByteCounters { xmitBytes : Z; recvBytes : Z }.

Definition resetBytes (c : ByteCounters) : ByteCounters := MkByteCounters 0 0.

(** A clock that advances by a microsecond and a half at each reading. *)
Definition clock0 : Clock := MkClock (λ n, 1500 * Z.of_nat n) 0.

(** A block that counts three and a half received bytes, lets the clock be
    read twice and then fails. *)
Definition failing_body : SyncMethod.block unit string :=
  λ w,
    let sm := SyncMethod.Mk
                (SyncStats.increment (SyncMethod.mySyncStats w.1) SyncStats.RECV 3.5%float)
                (SyncMethod.elements w.1) in
    (SyncMethod.Thrown "connection lost"%string, (sm, (now (now w.2).2).2)).

(** A session that fails against the communicants whose sent bytes are odd
    and succeeds against the others, counting its sessions in the agent. *)
Definition parity_session (agent : nat) (comm : ByteCounters)
    (smo oms : list GenSync.pointer)
    : bool * (nat * ByteCounters * list GenSync.pointer * list GenSync.pointer) :=
  (Z.even (xmitBytes comm), (S agent, resetBytes comm, smo, oms)).

(** An orchestrator with three communicants, the second one failing, and
    one method. *)
Definition gensync0 : GenSync.t ByteCounters nat :=
  GenSync.Mk [1%N; 2%N]
             [MkByteCounters 2 0; MkByteCounters 3 0; MkByteCounters 4 0]
             [0%nat].

End Examples.

(** ** Uses of the operations that the statements below talk about *)

Module Usage.

Import Cxx.

(** The state of a [SyncStats] object and of the clock after a sequence of
    calls. *)
Definition after_calls (w : SyncStats.t * Clock) (calls : list SyncStats.call)
    : SyncStats.t * Clock :=
  foldl SyncStats.step w calls.

(** [SyncMethod::addElem] as an add hook of [postProcessing_SET]: the
    hook's return type is [void], the result of [addElem] is dropped. *)
Definition addElem_hook (sm : SyncMethod.t) (datum : shared_ptr) : SyncMethod.t :=
  (SyncMethod.addElem sm datum).2.

(** A block whose body is one call of the base class's [SyncClient], as a
    derived method makes it at the start of its own [SyncClient]. *)
Definition SyncClient_block {Communicant E : Type}
    (resetCommCounters : Communicant → Communicant) (comm : Communicant)
    (selfMinusOther otherMinusSelf : list shared_ptr)
    : SyncMethod.block (SyncMethod.SyncResult Communicant) E :=
  λ w,
    let r := SyncMethod.SyncClient resetCommCounters w.1 comm
               selfMinusOther otherMinusSelf in
    (SyncMethod.Completed r, (SyncMethod.self r, w.2)).

End Usage.

(** ** The sessions of [startSync], as the specification words them *)

Module Sessions.

Import Cxx.

(** "For each registered peer, in registration order, initiates a
    client-role session using the strategy; an individual peer's session
    failure does not abort sessions with subsequent peers": one call of
    [SyncClient] per peer, each on the method object and the two lists as
    the call before left them, whatever that call returned. The relation
    holds between the state before the first call, the peers, the calls
    made (each peer with the outcome of its session), the peers as their
    sessions left them, and the state after the last call. *)
Inductive run_all {Communicant SyncAgent : Type}
    (SyncClient :
       SyncAgent → Communicant → list GenSync.pointer → list GenSync.pointer →
       bool * (SyncAgent * Communicant * list GenSync.pointer * list GenSync.pointer))
    : SyncAgent → list GenSync.pointer → list GenSync.pointer →
      list Communicant → list (Communicant * bool) → list Communicant →
      SyncAgent → list GenSync.pointer → list GenSync.pointer → Prop :=
| run_none (agent : SyncAgent) (smo oms : list GenSync.pointer) :
    run_all SyncClient agent smo oms [] [] [] agent smo oms
| run_next (agent : SyncAgent) (smo oms : list GenSync.pointer)
    (comm : Communicant) (rest : list Communicant)
    (ok : bool) (agent1 : SyncAgent) (comm' : Communicant)
    (smo1 oms1 : list GenSync.pointer)
    (calls : list (Communicant * bool)) (left : list Communicant)
    (agent2 : SyncAgent) (smo2 oms2 : list GenSync.pointer) :
    SyncClient agent comm smo oms = (ok, (agent1, comm', smo1, oms1)) →
    run_all SyncClient agent1 smo1 oms1 rest calls left agent2 smo2 oms2 →
    run_all SyncClient agent smo oms (comm :: rest)
            ((comm, ok) :: calls) (comm' :: left) agent2 smo2 oms2.

(** A method that records, in order, the communicants its [SyncClient] is
    called with; the session fails against the communicants whose sent
    bytes are odd, and resets the communicant's counters either way. *)
Definition recording_session (agent : list Examples.ByteCounters)
    (comm : Examples.ByteCounters) (smo oms : list GenSync.pointer)
    : bool * (list Examples.ByteCounters * Examples.ByteCounters
              * list GenSync.pointer * list GenSync.pointer) :=
  (Z.even (Examples.xmitBytes comm),
   (agent ++ [comm], Examples.resetBytes comm, smo, oms)).

(** Three communicants, the second one failing. *)
Definition peers : list Examples.ByteCounters :=
  [Examples.MkByteCounters 2 5; Examples.MkByteCounters 3 6;
   Examples.MkByteCounters 4 7].

(** An orchestrator with these communicants and one recording method. *)
Definition gensync1 : GenSync.t Examples.ByteCounters (list Examples.ByteCounters) :=
  GenSync.Mk [1%N; 2%N] peers [[]].

End Sessions.

(** * Properties *)

(** ** [std::remove] followed by [erase] keeps exactly the other elements *)

Section RemoveErase.

Import Cxx.

Variable value : shared_ptr.

Local Abbreviation keep := (filter (λ x : shared_ptr, x ≠ value)).

Lemma find_le (v : list shared_ptr) : (find v value ≤ length v)%nat.
Proof.
  induction v as [|x v IH]; simpl; [lia|].
  destruct (decide (x = value)); simpl; lia.
Qed.

Lemma find_lookup (v : list shared_ptr) :
  (find v value < length v)%nat → v !! find v value = Some value.
Proof.
  induction v as [|x v IH]; simpl; [lia|].
  destruct (decide (x = value)) as [->|Hne]; simpl; [done|].
  intros Hlt. apply IH. lia.
Qed.

Lemma keep_take_find (v : list shared_ptr) :
  keep (take (find v value) v) = take (find v value) v.
Proof.
  induction v as [|x v IH]; simpl; [done|].
  destruct (decide (x = value)) as [->|Hne]; simpl; [done|].
  rewrite filter_cons_True by done. by rewrite IH.
Qed.

Lemma find_elem_of (v : list shared_ptr) :
  value ∈ v ↔ (find v value < length v)%nat.
Proof.
  induction v as [|x v IH]; simpl.
  - split; [by intros ?%elem_of_nil | lia].
  - destruct (decide (x = value)) as [->|Hne]; simpl.
    + split; [lia | intros _; apply list_elem_of_here].
    + rewrite elem_of_cons, IH. split; [intros [?|?]; [congruence | lia] | intros; right; lia].
Qed.

(** The invariant of the compaction loop: the slots before [result] hold
    the kept elements of the part already read, the part still to read is
    untouched. *)
Lemma remove_loop_invariant (l : list shared_ptr) (n : nat) :
  ∀ (first result : nat) (v : list shared_ptr),
    length v = length l →
    (result < first)%nat →
    (first + n = length l)%nat →
    take result v = keep (take first l) →
    drop first v = drop first l →
    let st := foldl (remove_step value) (v, result) (seq first n) in
    take st.2 st.1 = keep l ∧ length st.1 = length l ∧ (st.2 ≤ length l)%nat.
Proof.
  induction n as [|n IH]; intros first result v Hlen Hlt Hn Htake Hdrop; simpl.
  - rewrite (take_ge l) in Htake by lia. split_and!; [done | done | lia].
  - assert (Hx : ∃ x, l !! first = Some x) by (apply lookup_lt_is_Some; lia).
    destruct Hx as [x Hx].
    assert (Hvx : v !! first = Some x).
    { rewrite <- (Nat.add_0_r first), <- lookup_drop, Hdrop, lookup_drop.
      by rewrite Nat.add_0_r. }
    rewrite Hvx.
    assert (Hnext : take (S first) l = take first l ++ [x]) by by apply take_S_r.
    destruct (decide (x = value)) as [Heq|Hne].
    + apply IH; [done | lia | lia | |].
      * rewrite Hnext, filter_app.
        rewrite (filter_singleton_False _ x []) by (intros Hk; by apply Hk).
        by rewrite app_nil_r.
      * replace (S first) with (first + 1)%nat by lia.
        by rewrite <- !drop_drop, Hdrop.
    + apply IH; [by rewrite !length_insert | lia | lia | |].
      * rewrite take_insert_ge by lia.
        rewrite (take_S_r _ _ x) by (apply list_lookup_insert_eq; lia).
        rewrite take_insert_ge by lia.
        rewrite Hnext, filter_app.
        rewrite (filter_singleton_True _ x []) by done.
        by rewrite Htake.
      * rewrite !drop_insert_lt by lia.
        replace (S first) with (first + 1)%nat by lia.
        by rewrite <- !drop_drop, Hdrop.
Qed.

Lemma remove_spec (v : list shared_ptr) :
  take (remove v value).2 (remove v value).1 = keep v
  ∧ length (remove v value).1 = length v
  ∧ ((remove v value).2 ≤ length v)%nat.
Proof.
  unfold remove. pose proof (find_le v) as Hle.
  destruct (decide (find v value = length v)) as [Heq|Hne]; simpl.
  - split_and!; [|done|lia].
    pose proof (keep_take_find v) as Hk.
    rewrite Heq, take_ge in Hk by lia. by rewrite Heq, take_ge by lia.
  - apply remove_loop_invariant; [done | lia | lia | | done].
    rewrite (take_S_r _ _ value) by (apply find_lookup; lia).
    rewrite filter_app.
    rewrite (filter_singleton_False _ value []) by (intros Hk; by apply Hk).
    by rewrite app_nil_r, keep_take_find.
Qed.

End RemoveErase.

(** ** [SyncMethod::addElem] and [SyncMethod::delElem] *)

Section Elements.

Import Cxx SyncMethod.

Lemma to_size_t_to_long (z : Z) : to_size_t (to_long z) = z mod 2 ^ 64.
Proof.
  unfold to_size_t, to_long, wrap_unsigned, wrap_signed.
  rewrite Zminus_mod_idemp_l. f_equal. lia.
Qed.

Lemma delElem_elements (sm : t) (datum : shared_ptr) :
  elements (delElem sm datum).2 = filter (λ x, x ≠ datum) (elements sm).
Proof.
  unfold delElem. pose proof (remove_spec datum (elements sm)) as (Hk & Hlen & Hle).
  destruct (remove (elements sm) datum) as [v new_end]; simpl in *.
  unfold erase. by rewrite drop_ge, app_nil_r by lia.
Qed.

Lemma delElem_mySyncStats (sm : t) (datum : shared_ptr) :
  mySyncStats (delElem sm datum).2 = mySyncStats sm.
Proof.
  unfold delElem. by destruct (remove (elements sm) datum).
Qed.

Lemma delElem_ret (sm : t) (datum : shared_ptr) :
  (delElem sm datum).1
  = bool_decide (vector_size (elements sm) mod 2 ^ 64 > vector_size (elements (delElem sm datum).2)).
Proof.
  unfold delElem. destruct (remove (elements sm) datum) as [v new_end]; simpl.
  by rewrite to_size_t_to_long.
Qed.

Lemma keep_absent (datum : shared_ptr) (l : list shared_ptr) :
  datum ∉ l → filter (λ x, x ≠ datum) l = l.
Proof.
  induction l as [|x l IH]; [done|].
  rewrite not_elem_of_cons. intros [Hne Hnin].
  rewrite filter_cons_True by done. by rewrite IH.
Qed.

Lemma keep_length_lt (datum : shared_ptr) (l : list shared_ptr) :
  datum ∈ l ↔ (length (filter (λ x, x ≠ datum) l) < length l)%nat.
Proof.
  split.
  - intros Hin. apply (length_filter_lt _ _ datum); [done | by intros Hk].
  - intros Hlt. destruct (decide (datum ∈ l)) as [|Hnin]; [done|].
    rewrite keep_absent in Hlt by done. lia.
Qed.

End Elements.

Section ElementClaims.

Import Cxx SyncMethod.

(** C1, as the code has it. [delElem] removes every stored pointer equal to
    the datum (all occurrences, not only the first), keeps the other
    elements in their order and leaves the statistics alone; it returns
    true exactly when the size of the store decreased, which is exactly
    when the datum was stored. The size of the store is a [size_t]. *)
Theorem delElem_removes_all (sm : t) (datum : shared_ptr) :
  vector_size (elements sm) < 2 ^ 64 →
  elements (delElem sm datum).2 = filter (λ x, x ≠ datum) (elements sm)
  ∧ mySyncStats (delElem sm datum).2 = mySyncStats sm
  ∧ ((delElem sm datum).1 = true
     ↔ vector_size (elements (delElem sm datum).2) < vector_size (elements sm))
  ∧ ((delElem sm datum).1 = true ↔ datum ∈ elements sm).
Proof.
  intros Hsize. unfold vector_size in Hsize.
  assert (Hret : (delElem sm datum).1 = true
     ↔ vector_size (elements (delElem sm datum).2) < vector_size (elements sm)).
  { rewrite delElem_ret, bool_decide_eq_true. unfold vector_size.
    rewrite Z.mod_small by lia. lia. }
  split_and!; [apply delElem_elements | apply delElem_mySyncStats | done |].
  rewrite Hret, delElem_elements, keep_length_lt. unfold vector_size. lia.
Qed.

(** C1, an instance: a store of three pointers, two of them the datum. *)
Lemma delElem_removes_all_witness :
  elements (delElem (Examples.holding [Examples.p1; Examples.p2; Examples.p1])
                    Examples.p1).2
  = filter (λ x, x ≠ Examples.p1) [Examples.p1; Examples.p2; Examples.p1]
  ∧ (delElem (Examples.holding [Examples.p1; Examples.p2; Examples.p1])
             Examples.p1).1 = true.
Proof.
  pose proof (delElem_removes_all
    (Examples.holding [Examples.p1; Examples.p2; Examples.p1]) Examples.p1)
    as H.
  destruct H as (He & _ & _ & Hin); [vm_compute; reflexivity|].
  split; [exact He|]. apply Hin. simpl. apply list_elem_of_here.
Defined.

(** C1, as the specification words it, fails: with the datum stored twice
    both occurrences go, where removing the first one would leave the
    second. *)
Lemma delElem_first_only_counterexample :
  elements (delElem (Examples.holding [Examples.p1; Examples.p2; Examples.p1])
                    Examples.p1).2 = [Examples.p2]
  ∧ Spec.remove_first Examples.p1 [Examples.p1; Examples.p2; Examples.p1]
    = [Examples.p2; Examples.p1]
  ∧ elements (delElem (Examples.holding [Examples.p1; Examples.p2; Examples.p1])
                      Examples.p1).2
    ≠ Spec.remove_first Examples.p1 [Examples.p1; Examples.p2; Examples.p1].
Proof.
  split_and!; [reflexivity | reflexivity | discriminate].
Qed.

(** C8, as the code has it. On a store that does not hold the datum,
    [addElem] followed by [delElem] gives back the object as it was: the
    same elements in the same order, the same size. *)
Theorem addElem_delElem_absent (sm : t) (datum : shared_ptr) :
  datum ∉ elements sm →
  (delElem (addElem sm datum).2 datum).2 = sm
  ∧ elements (delElem (addElem sm datum).2 datum).2 = elements sm
  ∧ getNumElem (delElem (addElem sm datum).2 datum).2 = getNumElem sm.
Proof.
  intros Hnin.
  assert (He : elements (delElem (addElem sm datum).2 datum).2 = elements sm).
  { rewrite delElem_elements. simpl. rewrite filter_app, keep_absent by done.
    rewrite (filter_singleton_False _ datum []) by (intros Hk; by apply Hk).
    by rewrite app_nil_r. }
  split_and!; [| done | unfold getNumElem; by rewrite He].
  pose proof (delElem_mySyncStats (addElem sm datum).2 datum) as Hs.
  destruct (delElem (addElem sm datum).2 datum).2 as [s' e'], sm as [s e].
  simpl in *. by subst.
Qed.

(** C8, an instance: the datum is new to a store of two pointers. *)
Lemma addElem_delElem_absent_witness :
  (delElem (addElem (Examples.holding [Examples.p1; Examples.p2]) Examples.p3).2
           Examples.p3).2
  = Examples.holding [Examples.p1; Examples.p2].
Proof.
  apply (addElem_delElem_absent (Examples.holding [Examples.p1; Examples.p2])
                                Examples.p3).
  simpl. rewrite !not_elem_of_cons. split_and!; [discriminate | discriminate |].
  apply not_elem_of_nil.
Defined.

(** C8, as the specification words it, fails: a datum stored once has
    unique multiplicity, and adding it and deleting it empties the store. *)
Lemma addElem_delElem_unique_counterexample :
  Spec.unique_multiplicity Examples.p1 (elements (Examples.holding [Examples.p1]))
  ∧ elements (delElem (addElem (Examples.holding [Examples.p1]) Examples.p1).2
                      Examples.p1).2 = []
  ∧ elements (delElem (addElem (Examples.holding [Examples.p1]) Examples.p1).2
                      Examples.p1).2
    ≠ elements (Examples.holding [Examples.p1]).
Proof.
  split_and!; [vm_compute; lia | reflexivity | discriminate].
Qed.

(** C10. Equality of stored elements is identity of the pointers. An
    entry is gone after [delElem] exactly when it is the datum's pointer;
    an entry at another address stays, as often as it was stored, whatever
    the two objects contain (equal contents included); and when the
    datum's pointer is not stored, [delElem] returns false and leaves the
    object as it was. *)
Theorem delElem_pointer_identity
    (DataObject : Type) (heap : gmap address DataObject)
    (sm : t) (datum : shared_ptr) :
  (∀ e, e ∈ elements sm →
        (e ∉ elements (delElem sm datum).2 ↔ get e = get datum))
  ∧ (∀ e, e ∈ elements sm → get e ≠ get datum →
          heap !! get e = heap !! get datum →
          e ∈ elements (delElem sm datum).2
          ∧ Spec.multiplicity e (elements (delElem sm datum).2)
            = Spec.multiplicity e (elements sm))
  ∧ (datum ∉ elements sm →
       (delElem sm datum).1 = false ∧ (delElem sm datum).2 = sm).
Proof.
  assert (Hget : ∀ e, get e = get datum ↔ e = datum).
  { intros [a]. destruct datum as [b]. simpl. split; congruence. }
  split_and!.
  - intros e He. rewrite delElem_elements, list_elem_of_filter, Hget.
    split; [|intros -> [Hne _]; by apply Hne].
    intros Hnot. destruct (decide (e = datum)); [done|]. by destruct Hnot.
  - intros e He Hne _. rewrite Hget in Hne.
    rewrite delElem_elements, list_elem_of_filter. split; [done|].
    unfold Spec.multiplicity. rewrite list_filter_filter. f_equal.
    apply list_filter_iff. intros x. split; [by intros [? _] | intros ->; done].
  - intros Hnin.
    assert (He : elements (delElem sm datum).2 = elements sm)
      by (rewrite delElem_elements; by apply keep_absent).
    split.
    + rewrite delElem_ret, He, bool_decide_eq_false. unfold vector_size.
      pose proof (Z.mod_le (Z.of_nat (length (elements sm))) (2 ^ 64)). lia.
    + pose proof (delElem_mySyncStats sm datum) as Hs.
      destruct (delElem sm datum).2 as [s' e'], sm as [s e].
      simpl in *. by subst.
Qed.

(** [addElem] appends the pointer to the store, whatever the store
    holds already, reports success and leaves the statistics alone. *)
Theorem addElem_appends (sm : t) (datum : shared_ptr) :
  (addElem sm datum).1 = true
  ∧ elements (addElem sm datum).2 = elements sm ++ [datum]
  ∧ vector_size (elements (addElem sm datum).2) = vector_size (elements sm) + 1
  ∧ mySyncStats (addElem sm datum).2 = mySyncStats sm.
Proof.
  split_and!; try done. unfold vector_size. simpl. rewrite length_app. simpl. lia.
Qed.

(** Two objects with equal contents at two addresses: deleting through
    the pointer that is not stored removes nothing. *)
Example delElem_equal_contents :
  ({[ 1%N := "a"; 2%N := "a" ]} : gmap address string) !! get Examples.p1
  = ({[ 1%N := "a"; 2%N := "a" ]} : gmap address string) !! get Examples.p2
  ∧ delElem (Examples.holding [Examples.p1]) Examples.p2
    = (false, Examples.holding [Examples.p1]).
Proof. split; reflexivity. Qed.

End ElementClaims.

(** ** [SyncStats] *)

Section Slots.

(** A loop over distinct indices whose body rewrites the slot of its index
    from that slot alone changes exactly the slots it visits. *)
Lemma foldl_slots {T : Type} (body : (Z → T) → Z → (Z → T)) (f : Z → T → T) :
  (∀ a j i, body a j i = if decide (j = i) then f j (a j) else a i) →
  ∀ l, NoDup l → ∀ a i,
    foldl body a l i = if decide (i ∈ l) then f i (a i) else a i.
Proof.
  intros Hbody l. induction l as [|j l IH]; intros Hnd a i; simpl.
  - destruct (decide (i ∈ [])) as [Hin|]; [by apply elem_of_nil in Hin | done].
  - apply NoDup_cons in Hnd as [Hj Hnd]. rewrite IH, !Hbody by done.
    destruct (decide (i ∈ l)), (decide (i ∈ j :: l)) as [Hc|Hc],
      (decide (j = i)); subst; try done; exfalso;
      rewrite elem_of_cons in Hc; intuition congruence.
Qed.

End Slots.

Section Stats.

Import Cxx SyncStats.

Lemma stat_range_NoDup : NoDup stat_range.
Proof. apply NoDup_seqZ. Qed.

Lemma stat_range_elem_of (ii : Z) : ii ∈ stat_range ↔ 1 ≤ ii < 6.
Proof. unfold stat_range. rewrite elem_of_seqZ. simpl. lia. Qed.

Lemma to_int_range (ID : StatID) :
  to_int ID ∈ stat_range ↔ ID ≠ NONE ∧ ID ≠ ALL.
Proof. rewrite stat_range_elem_of. destruct ID; simpl; split; try lia; try (intros [? ?]; done); split; done. Qed.

Lemma to_int_inj (a b : StatID) : to_int a = to_int b → a = b.
Proof. destruct a, b; simpl; intros; try lia; done. Qed.

(** The body of the loop of [increment] rewrites its own slot only. *)
Lemma increment_at_slot (statID : StatID) (incr : double) (a : Z → double) (j i : Z) :
  increment_at statID incr a j i
  = if decide (j = i)
    then (λ j x, if bool_decide (j = to_int statID) || bool_decide (statID = ALL)
                 then (x + (if bool_decide (j = to_int XMIT) || bool_decide (j = to_int RECV)
                            then floor incr else incr))%float
                 else x) j (a j)
    else a i.
Proof.
  unfold increment_at.
  destruct (bool_decide (j = to_int statID) || bool_decide (statID = ALL)).
  - unfold insert, fn_insert. by destruct (decide (j = i)) as [->|].
  - by destruct (decide (j = i)) as [->|].
Qed.

(** The value [increment] leaves in each slot. *)
Lemma increment_dataArray (s : t) (statID : StatID) (incr : double) (ii : Z) :
  dataArray (increment s statID incr) ii
  = if bool_decide (ii ∈ stat_range)
       && (bool_decide (ii = to_int statID) || bool_decide (statID = ALL))
    then (dataArray s ii +
          (if bool_decide (ii = to_int XMIT) || bool_decide (ii = to_int RECV)
           then floor incr else incr))%float
    else dataArray s ii.
Proof.
  unfold increment; cbn [dataArray].
  rewrite (foldl_slots _ _ (increment_at_slot statID incr) _ stat_range_NoDup).
  destruct (decide (ii ∈ stat_range)) as [Hin|Hnin].
  - by rewrite (bool_decide_eq_true_2 _ Hin).
  - by rewrite (bool_decide_eq_false_2 _ Hnin).
Qed.

(** On an amount that is not negative, rounding down is truncation. *)
Lemma floor_trunc_nonneg (x : double) :
  (0 <=? x)%float = true → floor x = Spec.trunc x.
Proof.
  rewrite leb_spec. unfold floor, Spec.trunc, round_integral.
  destruct (Prim2SF x) as [| | |s m e]; try done.
  destruct s; [|done]. vm_compute. discriminate.
Qed.

End Stats.

Section StatsClaims.

Import Cxx SyncStats.

Lemma reset_ALL_dataArray (s : t) (ii : Z) :
  dataArray (reset s ALL) ii
  = if decide (ii ∈ stat_range) then 0%float else dataArray s ii.
Proof.
  unfold reset. rewrite decide_False by (intros Hk; by apply Hk). cbn [dataArray].
  rewrite (foldl_slots _ (λ _ _, 0%float)); [done | | apply stat_range_NoDup].
  intros a j i. unfold insert, fn_insert. by destruct (decide (j = i)).
Qed.

(** C2, as the code has it. [increment] adds to the named counter, or to
    each of the five counters when the id is [ALL], and to nothing else
    (the id [NONE] names no counter). A time counter receives the amount
    itself; a byte counter receives [floor] of the amount, the amount
    rounded towards minus infinity. For an amount that is not negative
    that is the amount truncated toward zero. *)
Theorem increment_adds_floor (s : t) (statID : StatID) (incr : double) :
  (∀ counter, counter ≠ NONE → counter ≠ ALL →
     getStat (increment s statID incr) counter
     = if bool_decide (counter = statID) || bool_decide (statID = ALL)
       then (getStat s counter +
             (if bool_decide (counter = XMIT) || bool_decide (counter = RECV)
              then floor incr else incr))%float
       else getStat s counter)
  ∧ (∀ ii, ¬ (1 ≤ ii < 6) →
       dataArray (increment s statID incr) ii = dataArray s ii)
  ∧ startTimeArray (increment s statID incr) = startTimeArray s
  ∧ ((0 <=? incr)%float = true → floor incr = Spec.trunc incr).
Proof.
  split_and!; [| | done | apply floor_trunc_nonneg].
  - intros counter HN HA. unfold getStat. rewrite increment_dataArray.
    rewrite (bool_decide_eq_true_2 (to_int counter ∈ stat_range))
      by (by apply to_int_range).
    rewrite (bool_decide_ext (to_int counter = to_int statID) (counter = statID))
      by (split; [apply to_int_inj | by intros ->]).
    rewrite (bool_decide_ext (to_int counter = to_int XMIT) (counter = XMIT))
      by (split; [apply to_int_inj | by intros ->]).
    rewrite (bool_decide_ext (to_int counter = to_int RECV) (counter = RECV))
      by (split; [apply to_int_inj | by intros ->]).
    done.
  - intros ii Hii. rewrite increment_dataArray.
    rewrite (bool_decide_eq_false_2 (ii ∈ stat_range))
      by (by rewrite stat_range_elem_of).
    done.
Qed.

(** C2, as the specification words it, fails: half a byte taken off the
    sent bytes of a fresh object leaves -1 there, where truncation toward
    zero would leave 0. *)
Lemma increment_truncation_counterexample :
  getStat (increment Examples.stats0 XMIT (-0.5)%float) XMIT = (-1)%float
  ∧ Spec.incremented (dataArray Examples.stats0) XMIT (-0.5)%float (to_int XMIT)
    = 0%float
  ∧ getStat (increment Examples.stats0 XMIT (-0.5)%float) XMIT
    ≠ Spec.incremented (dataArray Examples.stats0) XMIT (-0.5)%float (to_int XMIT).
Proof.
  split_and!; [vm_compute; reflexivity | vm_compute; reflexivity |].
  intros H. apply (f_equal Prim2SF) in H. vm_compute in H. discriminate.
Qed.

(** C3. Whatever object and clock one starts from and whatever calls of
    [reset], [increment], [timerStart] and [timerEnd] follow, each call
    returns, and after each call [totalTime()] is the sum of the three time
    counters, added in the order communication, idle, computation: it is
    the same binary64 value. (Compared with the operator [==], the two are
    equal unless that value is NaN, the one value [==] tells from
    itself.) *)
Theorem totalTime_is_sum (w : t * Clock) (calls : list call) :
  length (states_after w calls) = length calls
  ∧ Forall (λ w' : t * Clock,
              totalTime w'.1
              = (getStat w'.1 COMM_TIME + getStat w'.1 IDLE_TIME
                 + getStat w'.1 COMP_TIME)%float
              ∧ (totalTime w'.1
                 =? getStat w'.1 COMM_TIME + getStat w'.1 IDLE_TIME
                    + getStat w'.1 COMP_TIME)%float
                = negb (is_nan (totalTime w'.1)))
           (states_after w calls).
Proof.
  revert w. induction calls as [|c calls IH]; intros w; simpl.
  - split; [done | constructor].
  - destruct (IH (step w c)) as [Hlen Hall].
    split; [by rewrite Hlen|]. constructor; [|done].
    split; [reflexivity|]. unfold is_nan. by rewrite negb_involutive.
Qed.

(** [reset] of one counter puts that counter to zero and leaves the other
    slots alone; [reset(ALL)] puts each of the five counters to zero, and
    [totalTime()] is zero after it. The start times are kept. *)
Theorem reset_zeroes (s : t) (statID : StatID) :
  (statID ≠ ALL →
     getStat (reset s statID) statID = 0%float
     ∧ ∀ ii, ii ≠ to_int statID → dataArray (reset s statID) ii = dataArray s ii)
  ∧ (∀ counter, counter ≠ NONE → counter ≠ ALL →
       getStat (reset s ALL) counter = 0%float)
  ∧ totalTime (reset s ALL) = 0%float
  ∧ startTimeArray (reset s statID) = startTimeArray s.
Proof.
  assert (Hzero : ∀ counter, counter ≠ NONE → counter ≠ ALL →
            getStat (reset s ALL) counter = 0%float).
  { intros counter HN HA. unfold getStat. rewrite reset_ALL_dataArray.
    by rewrite decide_True by (by apply to_int_range). }
  split_and!; [| done | |].
  - intros Hne. unfold reset, getStat. rewrite decide_True by done.
    cbn [dataArray]. split; [apply fn_lookup_insert|].
    intros ii Hii. by rewrite fn_lookup_insert_ne.
  - unfold totalTime. fold (getStat (reset s ALL) COMM_TIME).
    fold (getStat (reset s ALL) IDLE_TIME). fold (getStat (reset s ALL) COMP_TIME).
    by rewrite !Hzero.
  - unfold reset. by destruct (decide (statID ≠ ALL)).
Qed.

End StatsClaims.

(** ** [SyncMethod::SyncClient] and [SyncMethod::SyncServer] *)

Section SyncCalls.

Import Cxx SyncStats SyncMethod.

(** The contract of the communicant, from the specification of the
    transport: [resetCommCounters] puts the counts of the bytes sent and
    received since the last reset back to zero. *)
Context {Communicant : Type}.
Variable resetCommCounters : Communicant → Communicant.
Variables getXmitBytes getRecvBytes : Communicant → Z.
Hypothesis resetCommCounters_zero :
  ∀ c, getXmitBytes (resetCommCounters c) = 0
       ∧ getRecvBytes (resetCommCounters c) = 0.

(** What both calls do, stated once. *)
Lemma reset_session_effects (sm : SyncMethod.t) (comm : Communicant)
    (smo oms : list shared_ptr) (r : SyncResult Communicant) :
  r = MkSyncResult true
        (SyncMethod.Mk (reset (mySyncStats sm) ALL) (elements sm))
        (resetCommCounters comm) smo oms →
  (∀ counter, counter ≠ NONE → counter ≠ ALL →
     getStat (mySyncStats (self r)) counter = 0%float)
  ∧ totalTime (mySyncStats (self r)) = 0%float
  ∧ commSync r = resetCommCounters comm
  ∧ getXmitBytes (commSync r) = 0
  ∧ getRecvBytes (commSync r) = 0
  ∧ smo `prefix_of` selfMinusOther r
  ∧ oms `prefix_of` otherMinusSelf r
  ∧ elements (self r) = elements sm.
Proof.
  intros ->. cbn [self commSync selfMinusOther otherMinusSelf mySyncStats elements].
  assert (Hzero : ∀ counter, counter ≠ NONE → counter ≠ ALL →
            getStat (reset (mySyncStats sm) ALL) counter = 0%float).
  { intros counter HN HA. unfold getStat. rewrite reset_ALL_dataArray.
    by rewrite decide_True by (by apply to_int_range). }
  split_and!; try done; try apply resetCommCounters_zero.
Qed.

(** C4. A call of [SyncClient] or of [SyncServer], as the base class
    defines them, puts the five counters of the object's statistics to
    zero, resets the communicant (whose byte counters are zero after that)
    and leaves in each of the two result lists what the caller had put
    there, as a prefix of the list returned. *)
Theorem Sync_resets_and_appends (sm : SyncMethod.t) (comm : Communicant)
    (smo oms : list shared_ptr) :
  ∀ r, r = SyncClient resetCommCounters sm comm smo oms
         ∨ r = SyncServer resetCommCounters sm comm smo oms →
    ret r = true
    ∧ (∀ counter, counter ≠ NONE → counter ≠ ALL →
         getStat (mySyncStats (self r)) counter = 0%float)
    ∧ commSync r = resetCommCounters comm
    ∧ getXmitBytes (commSync r) = 0
    ∧ getRecvBytes (commSync r) = 0
    ∧ smo `prefix_of` selfMinusOther r
    ∧ oms `prefix_of` otherMinusSelf r.
Proof.
  intros r Hr.
  assert (Heq : r = MkSyncResult true
            (SyncMethod.Mk (reset (mySyncStats sm) ALL) (elements sm))
            (resetCommCounters comm) smo oms) by (by destruct Hr).
  destruct (reset_session_effects sm comm smo oms r Heq)
    as (H1 & _ & H3 & H4 & H5 & H6 & H7 & _).
  split_and!; try done. by rewrite Heq.
Qed.

End SyncCalls.

(** C4, an instance: a client call on an object with used counters, a
    communicant that has moved bytes, and result lists that are not
    empty. *)
Lemma Sync_resets_and_appends_witness :
  SyncStats.getStat
    (SyncMethod.mySyncStats
       (SyncMethod.self
          (SyncMethod.SyncClient Examples.resetBytes
             (SyncMethod.Mk
                (SyncStats.increment Examples.stats0 SyncStats.ALL 2.5%float)
                [Examples.p1])
             (Examples.MkByteCounters 10 20) [Examples.p2] [Examples.p3])))
    SyncStats.XMIT = 0%float
  ∧ [Examples.p3] `prefix_of`
      SyncMethod.otherMinusSelf
        (SyncMethod.SyncClient Examples.resetBytes
           (SyncMethod.Mk
              (SyncStats.increment Examples.stats0 SyncStats.ALL 2.5%float)
              [Examples.p1])
           (Examples.MkByteCounters 10 20) [Examples.p2] [Examples.p3]).
Proof.
  destruct (Sync_resets_and_appends Examples.resetBytes
              Examples.xmitBytes Examples.recvBytes
              (λ c, conj eq_refl eq_refl)
              (SyncMethod.Mk
                 (SyncStats.increment Examples.stats0 SyncStats.ALL 2.5%float)
                 [Examples.p1])
              (Examples.MkByteCounters 10 20) [Examples.p2] [Examples.p3]
              _ (or_introl eq_refl))
    as (_ & Hzero & _ & _ & _ & _ & Hpre).
  split; [apply Hzero; discriminate | exact Hpre].
Defined.

(** ** The scoped timer *)

Section ScopedTimer.

Import Cxx SyncStats SyncMethod.

Lemma timerStart_one (s : SyncStats.t) (timerID : StatID) (clk : Clock) :
  timerID ≠ ALL →
  timerStart s timerID clk
  = (SyncStats.Mk (dataArray s)
       (<[to_int timerID := next_reading clk]> (startTimeArray s)),
     MkClock (reading clk) (S (ticks clk))).
Proof. intros Hne. unfold timerStart. by rewrite decide_True by done. Qed.

Lemma timerEnd_one (s : SyncStats.t) (timerID : StatID) (clk : Clock) :
  timerID ≠ ALL →
  timerEnd s timerID clk
  = (SyncStats.Mk
       (<[to_int timerID :=
            (dataArray s (to_int timerID)
             + elapsed (startTimeArray s (to_int timerID)) (next_reading clk))%float]>
          (dataArray s))
       (startTimeArray s),
     MkClock (reading clk) (S (ticks clk))).
Proof. intros Hne. unfold timerEnd. by rewrite decide_True by done. Qed.




End ScopedTimer.

(** ** [SyncMethod::postProcessing_SET] *)

Section PostProcessing.

Import Cxx SyncMethod.

(** C6. [postProcessing_SET] leaves the object in the state reached by
    calling the add hook on the elements of [otherMinusSelf], one after the
    other in list order; [myData] and the delete hook play no part. Run
    with hooks that record their calls, the record grows by exactly one
    call of the add hook per element, in list order, and by no call of the
    delete hook. *)
Theorem postProcessing_SET_adds_each {T : Type}
    (otherMinusSelf myData : list shared_ptr)
    (add : T → shared_ptr → T) (del : T → shared_ptr → bool * T)
    (pGenSync : T) (log : list hook_call) :
  postProcessing_SET otherMinusSelf myData add del pGenSync
  = foldl add pGenSync otherMinusSelf
  ∧ postProcessing_SET otherMinusSelf myData
      (logged_add add) (logged_del del) (pGenSync, log)
    = (foldl add pGenSync otherMinusSelf, log ++ (AddCalled <$> otherMinusSelf)).
Proof.
  revert pGenSync log.
  induction otherMinusSelf as [|elem rest IH]; intros pGenSync log; simpl.
  - by rewrite app_nil_r.
  - destruct (IH (add pGenSync elem) (log ++ [AddCalled elem])) as [IH1 IH2].
    split; [done|]. unfold logged_add at 2; simpl.
    by rewrite IH2, <- app_assoc.
Qed.

End PostProcessing.

(** ** [GenSync] *)

Section OrchestratorClaims.

Import Cxx GenSync.

Context {Communicant SyncAgent : Type}.
Variable SyncClient :
  SyncAgent → Communicant → list pointer → list pointer →
  bool * (SyncAgent * Communicant * list pointer * list pointer).

(** The loop starts one session per communicant still to do, in order,
    whatever the outcomes, and accumulates their conjunction. *)
Lemma startSync_loop_sessions (todo : list Communicant) :
  ∀ p : Progress, ∃ outcomes : list bool,
    length outcomes = length todo
    ∧ sessions (startSync_loop SyncClient todo p)
      = sessions p ++ zip todo outcomes
    ∧ syncSuccess (startSync_loop SyncClient todo p)
      = syncSuccess p && forallb id outcomes
    ∧ length (handled (startSync_loop SyncClient todo p))
      = (length (handled p) + length todo)%nat.
Proof.
  induction todo as [|comm rest IH]; intros p; simpl.
  - exists []. simpl. by rewrite app_nil_r, andb_true_r, Nat.add_0_r.
  - destruct (SyncClient (agent p) comm (selfMinusOther p) (otherMinusSelf p))
      as [ok [[[agent' comm'] smo] oms]].
    destruct (IH (MkProgress (syncSuccess p && ok) agent' (handled p ++ [comm'])
                             smo oms (sessions p ++ [(comm, ok)])))
      as (outcomes & Hlen & Hs & Hok & Hh).
    cbn [sessions syncSuccess handled] in *.
    exists (ok :: outcomes). simpl. split_and!.
    + by rewrite Hlen.
    + by rewrite Hs, <- app_assoc.
    + by rewrite Hok, andb_assoc.
    + rewrite Hh, length_app. simpl. lia.
Qed.

(** The loop makes the calls the specification describes, from the state
    it is entered in. *)
Lemma startSync_loop_run_all (todo : list Communicant) :
  ∀ p : Progress, ∃ calls left,
    Sessions.run_all SyncClient (agent p) (selfMinusOther p) (otherMinusSelf p)
      todo calls left
      (agent (startSync_loop SyncClient todo p))
      (selfMinusOther (startSync_loop SyncClient todo p))
      (otherMinusSelf (startSync_loop SyncClient todo p))
    ∧ sessions (startSync_loop SyncClient todo p) = sessions p ++ calls
    ∧ handled (startSync_loop SyncClient todo p) = handled p ++ left
    ∧ syncSuccess (startSync_loop SyncClient todo p)
      = syncSuccess p && forallb snd calls.
Proof.
  induction todo as [|comm rest IH]; intros p; simpl.
  - exists [], []. rewrite !app_nil_r, andb_true_r.
    split_and!; [constructor | done | done | done].
  - destruct (SyncClient (agent p) comm (selfMinusOther p) (otherMinusSelf p))
      as [ok [[[agent' comm'] smo] oms]] eqn:Hcall.
    destruct (IH (MkProgress (syncSuccess p && ok) agent' (handled p ++ [comm'])
                             smo oms (sessions p ++ [(comm, ok)])))
      as (calls & left & Hrun & Hs & Hh & Hok).
    cbn [sessions syncSuccess handled agent selfMinusOther otherMinusSelf] in *.
    exists ((comm, ok) :: calls), (comm' :: left). split_and!.
    + by eapply Sessions.run_next.
    + by rewrite Hs, <- app_assoc.
    + by rewrite Hh, <- app_assoc.
    + rewrite Hok. simpl. by rewrite andb_assoc.
Qed.

(** What a run of all sessions leaves in a method that records its
    calls: the communicants, in order. *)
Lemma run_all_seen (seen : SyncAgent → list Communicant) :
  (∀ a c smo oms, seen (SyncClient a c smo oms).2.1.1.1 = seen a ++ [c]) →
  ∀ comms a smo oms calls left a' smo' oms',
    Sessions.run_all SyncClient a smo oms comms calls left a' smo' oms' →
    seen a' = seen a ++ comms
    ∧ calls.*1 = comms
    ∧ length left = length comms.
Proof.
  intros Hseen comms a smo oms calls left a' smo' oms' Hrun.
  induction Hrun as [a smo oms
                    |a smo oms comm rest ok a1 comm' smo1 oms1 calls left
                       a2 smo2 oms2 Hcall Hrun IH].
  - by rewrite app_nil_r.
  - destruct IH as (IH1 & IH2 & IH3). specialize (Hseen a comm smo oms).
    rewrite Hcall in Hseen. simpl in Hseen. split_and!.
    + by rewrite IH1, Hseen, <- app_assoc.
    + rewrite fmap_cons. simpl. by f_equal.
    + simpl. by f_equal.
Qed.

(** C7, against the orchestrator modelled from the specification. For a
    valid index of a method, [startSync] returns. It has made one call of
    [SyncClient] per registered communicant, in registration order, each
    on the method and the two lists as the call before left them, also
    after a session that failed: the sessions it reports are these calls
    with what each returned, the method and the communicants it leaves in
    the orchestrator are the ones the calls left, and a method that keeps
    a record of the communicants it is called with has recorded every
    registered communicant, in order. The boolean returned is the
    conjunction of the outcomes of these sessions, true exactly when every
    one of them succeeded. *)
Theorem startSync_all_in_order (gs : GenSync.t Communicant SyncAgent)
    (sync_num : Z) (syncAgent : SyncAgent) :
  0 ≤ sync_num →
  mySyncVec gs !! Z.to_nat sync_num = Some syncAgent →
  ∃ ok gs' p,
    startSync SyncClient gs sync_num = Some (ok, gs', p)
    ∧ Sessions.run_all SyncClient syncAgent [] [] (myCommVec gs)
        (sessions p) (myCommVec gs')
        (agent p) (selfMinusOther p) (otherMinusSelf p)
    ∧ gs' = GenSync.Mk (myData gs) (myCommVec gs')
              (<[Z.to_nat sync_num := agent p]> (mySyncVec gs))
    ∧ (∀ seen : SyncAgent → list Communicant,
         (∀ a c smo oms,
            seen (SyncClient a c smo oms).2.1.1.1 = seen a ++ [c]) →
         seen (agent p) = seen syncAgent ++ myCommVec gs)
    ∧ (sessions p).*1 = myCommVec gs
    ∧ ok = forallb snd (sessions p)
    ∧ (ok = true ↔ ∀ s, s ∈ sessions p → s.2 = true)
    ∧ length (myCommVec gs') = length (myCommVec gs).
Proof.
  intros Hpos Hagent. unfold startSync.
  rewrite decide_True by done. rewrite Hagent.
  destruct (startSync_loop_run_all (myCommVec gs)
              (MkProgress true syncAgent [] [] [] []))
    as (calls & left & Hrun & Hs & Hh & Hok).
  cbn [sessions syncSuccess handled agent selfMinusOther otherMinusSelf] in *.
  simpl in Hs, Hh, Hok. subst calls left.
  eexists _, _, _. split; [reflexivity|]. cbn [myCommVec].
  pose proof (λ seen H, run_all_seen seen H _ _ _ _ _ _ _ _ _ Hrun) as Hseen.
  split_and!.
  - done.
  - done.
  - intros seen H. by destruct (Hseen seen H).
  - assert (Hall : ∀ comms a smo oms calls left a' smo' oms',
               Sessions.run_all SyncClient a smo oms comms calls left a' smo' oms' →
               calls.*1 = comms).
    { clear. intros comms a smo oms calls left a' smo' oms' H.
      induction H; simpl; [done | by f_equal]. }
    by eapply Hall.
  - done.
  - rewrite Hok, forallb_forall. setoid_rewrite list_elem_of_In.
    split; [intros H [c o] Hin; by apply (H (c, o)) | intros H [c o] Hin; by apply (H (c, o))].
  - assert (Hall : ∀ comms a smo oms calls left a' smo' oms',
               Sessions.run_all SyncClient a smo oms comms calls left a' smo' oms' →
               length left = length comms).
    { clear. intros comms a smo oms calls left a' smo' oms' H.
      induction H; simpl; [done | by f_equal]. }
    by eapply Hall.
Qed.

(** C9, against the orchestrator modelled from the specification. Whatever
    the datum, [delElem] fails and leaves the orchestrator as it was: the
    sequence [dumpElements] returns after the call is the one it returned
    before. The same holds after any number of such calls. *)
Theorem delElem_never_mutates (gs : GenSync.t Communicant SyncAgent)
    (newDatum : pointer) (more : list pointer) :
  dumpElements (delElem gs newDatum).2 = dumpElements gs
  ∧ (delElem gs newDatum).1 = inl UnsupportedOperationError
  ∧ dumpElements (foldl (λ g d, (delElem g d).2) gs (newDatum :: more))
    = dumpElements gs.
Proof.
  split_and!; [done | done |].
  revert gs. induction (newDatum :: more) as [|d ds IH]; intros gs; simpl.
  - done.
  - by rewrite IH.
Qed.

End OrchestratorClaims.

(** C7, an instance: three communicants, the session with the second one
    fails. All three calls are made, in order: the method has recorded the
    three communicants, each communicant is left reset, the three sessions
    are reported with their outcomes, and the result is false. *)
Lemma startSync_all_in_order_witness :
  GenSync.startSync Sessions.recording_session Sessions.gensync1 0
  = Some (false,
          GenSync.Mk [1%N; 2%N]
            [Examples.MkByteCounters 0 0; Examples.MkByteCounters 0 0;
             Examples.MkByteCounters 0 0]
            [Sessions.peers],
          GenSync.MkProgress false Sessions.peers
            [Examples.MkByteCounters 0 0; Examples.MkByteCounters 0 0;
             Examples.MkByteCounters 0 0]
            [] []
            [(Examples.MkByteCounters 2 5, true);
             (Examples.MkByteCounters 3 6, false);
             (Examples.MkByteCounters 4 7, true)])
  ∧ Sessions.run_all Sessions.recording_session [] [] [] Sessions.peers
      [(Examples.MkByteCounters 2 5, true);
       (Examples.MkByteCounters 3 6, false);
       (Examples.MkByteCounters 4 7, true)]
      [Examples.MkByteCounters 0 0; Examples.MkByteCounters 0 0;
       Examples.MkByteCounters 0 0]
      Sessions.peers [] [].
Proof.
  destruct (startSync_all_in_order Sessions.recording_session Sessions.gensync1
              0 [])
    as (ok & gs' & p & Heq & Hrun & _); [lia | reflexivity |].
  vm_compute in Heq. injection Heq as <- <- <-.
  split; [reflexivity | exact Hrun].
Defined.

(** ** More on the element store *)

Section ElementStore.

Import Cxx SyncMethod.

Lemma multiplicity_app (x : shared_ptr) (l k : list shared_ptr) :
  Spec.multiplicity x (l ++ k)
  = (Spec.multiplicity x l + Spec.multiplicity x k)%nat.
Proof. unfold Spec.multiplicity. by rewrite filter_app, length_app. Qed.

Lemma multiplicity_split (datum : shared_ptr) (l : list shared_ptr) :
  (length (filter (λ x, x ≠ datum) l) + Spec.multiplicity datum l)%nat = length l.
Proof.
  unfold Spec.multiplicity. induction l as [|x l IH]; [done|].
  destruct (decide (x = datum)) as [Heq|Hne].
  - rewrite filter_cons_False by (intros Hk; by apply Hk).
    rewrite (filter_cons_True (λ x, x = datum)) by done. simpl. lia.
  - rewrite filter_cons_True by done.
    rewrite (filter_cons_False (λ x, x = datum)) by done. simpl. lia.
Qed.

Lemma delElem_absent (sm : t) (datum : shared_ptr) :
  datum ∉ elements sm → delElem sm datum = (false, sm).
Proof.
  intros Hnin.
  assert (He : elements (delElem sm datum).2 = elements sm)
    by (rewrite delElem_elements; by apply keep_absent).
  pose proof (delElem_ret sm datum) as Hret.
  pose proof (delElem_mySyncStats sm datum) as Hs.
  destruct (delElem sm datum) as [b [s' e']], sm as [s e]. simpl in *. subst.
  f_equal. apply bool_decide_eq_false. unfold vector_size.
  pose proof (Z.mod_le (Z.of_nat (length e)) (2 ^ 64)). lia.
Qed.

(** [addElem] never refuses and never looks at what is stored: the
    pointer goes to the end of the vector, so a pointer that is stored
    already is stored once more, and no other pointer is stored more or
    less often than before. *)
Theorem addElem_multiset (sm : t) (datum : shared_ptr) :
  (addElem sm datum).1 = true
  ∧ elements (addElem sm datum).2 = elements sm ++ [datum]
  ∧ Spec.multiplicity datum (elements (addElem sm datum).2)
    = S (Spec.multiplicity datum (elements sm))
  ∧ (∀ x, x ≠ datum →
       Spec.multiplicity x (elements (addElem sm datum).2)
       = Spec.multiplicity x (elements sm)).
Proof.
  split_and!; [done | done | |]; simpl.
  - rewrite multiplicity_app. unfold Spec.multiplicity at 2.
    rewrite (filter_singleton_True _ datum []) by done. simpl. lia.
  - intros x Hne. rewrite multiplicity_app. unfold Spec.multiplicity at 2.
    rewrite (filter_singleton_False _ datum []) by (by intros ->). simpl. lia.
Qed.

(** A second [delElem] of the same datum finds nothing: it returns false
    and leaves the object as the first call left it. *)
Theorem delElem_twice (sm : t) (datum : shared_ptr) :
  delElem (delElem sm datum).2 datum = (false, (delElem sm datum).2).
Proof.
  apply delElem_absent. rewrite delElem_elements, list_elem_of_filter.
  intros [Hne _]. by apply Hne.
Qed.

(** Deleting two data leaves the same object whichever goes first. *)
Theorem delElem_commute (sm : t) (a b : shared_ptr) :
  (delElem (delElem sm a).2 b).2 = (delElem (delElem sm b).2 a).2.
Proof.
  assert (He : elements (delElem (delElem sm a).2 b).2
               = elements (delElem (delElem sm b).2 a).2).
  { rewrite !delElem_elements, !list_filter_filter.
    apply list_filter_iff. intros x. tauto. }
  assert (Hs : mySyncStats (delElem (delElem sm a).2 b).2
               = mySyncStats (delElem (delElem sm b).2 a).2)
    by (by rewrite !delElem_mySyncStats).
  destruct (delElem (delElem sm a).2 b).2, (delElem (delElem sm b).2 a).2.
  simpl in *. by subst.
Qed.

(** [getNumElem] after [delElem] is smaller by the number of times the
    datum was stored; the size of the store fits a [long]. *)
Theorem delElem_getNumElem (sm : t) (datum : shared_ptr) :
  vector_size (elements sm) < 2 ^ 63 →
  getNumElem (delElem sm datum).2
  = getNumElem sm - Z.of_nat (Spec.multiplicity datum (elements sm))
  ∧ 0 ≤ getNumElem (delElem sm datum).2 ≤ getNumElem sm.
Proof.
  intros Hsize. unfold getNumElem, vector_size in *. rewrite delElem_elements.
  pose proof (multiplicity_split datum (elements sm)) as Hsplit.
  assert (Hlong : ∀ z, 0 ≤ z < 2 ^ 63 → to_long z = z).
  { intros z Hz. unfold to_long, wrap_signed.
    rewrite Z.mod_small by lia. lia. }
  rewrite !Hlong by lia. lia.
Qed.

(** An instance: a store of three pointers, two of them the datum. *)
Lemma delElem_getNumElem_witness :
  getNumElem (delElem (Examples.holding [Examples.p1; Examples.p2; Examples.p1])
                      Examples.p1).2 = 1.
Proof.
  destruct (delElem_getNumElem
              (Examples.holding [Examples.p1; Examples.p2; Examples.p1])
              Examples.p1) as [Heq _]; [vm_compute; reflexivity|].
  exact Heq.
Defined.

(** With [addElem] as its add hook, [postProcessing_SET] appends the
    whole of [otherMinusSelf] to the store, [myData] and the delete hook
    playing no part: nothing is compared with what is stored, so an element
    of [otherMinusSelf] that is stored already is stored at least twice
    afterwards. *)
Theorem postProcessing_SET_appends
    (otherMinusSelf myData : list shared_ptr)
    (del : t → shared_ptr → bool * t) (sm : t) :
  elements (postProcessing_SET otherMinusSelf myData Usage.addElem_hook del sm)
  = elements sm ++ otherMinusSelf
  ∧ mySyncStats (postProcessing_SET otherMinusSelf myData Usage.addElem_hook del sm)
    = mySyncStats sm
  ∧ (∀ e, e ∈ elements sm → e ∈ otherMinusSelf →
       (2 ≤ Spec.multiplicity e
              (elements (postProcessing_SET otherMinusSelf myData
                           Usage.addElem_hook del sm)))%nat).
Proof.
  assert (H : ∀ sm,
    elements (postProcessing_SET otherMinusSelf myData Usage.addElem_hook del sm)
    = elements sm ++ otherMinusSelf
    ∧ mySyncStats (postProcessing_SET otherMinusSelf myData Usage.addElem_hook del sm)
      = mySyncStats sm).
  { induction otherMinusSelf as [|elem rest IH]; intros sm'; simpl.
    - by rewrite app_nil_r.
    - destruct (IH (Usage.addElem_hook sm' elem)) as [IH1 IH2].
      rewrite IH1, IH2. simpl. by rewrite <- app_assoc. }
  destruct (H sm) as [He Hs]. split_and!; [done | done |].
  intros e Hin Hin'. rewrite He, multiplicity_app.
  assert (Hpos : ∀ l, e ∈ l → (1 ≤ Spec.multiplicity e l)%nat).
  { intros l Hl. unfold Spec.multiplicity.
    destruct (filter (λ x, x = e) l) as [|y ys] eqn:Hf; [|simpl; lia].
    exfalso. by apply (filter_nil_not_elem_of _ _ e Hf). }
  pose proof (Hpos _ Hin). pose proof (Hpos _ Hin'). lia.
Qed.

(** Whatever the hooks, processing a list in two parts, one call after
    the other, is processing it in one call. *)
Theorem postProcessing_SET_app {T : Type}
    (first second myData myData' myData'' : list shared_ptr)
    (add : T → shared_ptr → T) (del : T → shared_ptr → bool * T) (pGenSync : T) :
  postProcessing_SET (first ++ second) myData add del pGenSync
  = postProcessing_SET second myData' add del
      (postProcessing_SET first myData'' add del pGenSync).
Proof.
  revert pGenSync. induction first as [|elem rest IH]; intros pGenSync; simpl.
  - revert pGenSync. induction second as [|e r IHs]; intros p; simpl; [done|].
    apply IHs.
  - apply IH.
Qed.

End ElementStore.

(** ** More on [SyncStats] *)

Section StatsLoops.

Import Cxx SyncStats.

Lemma stat_range_lookup (counter : StatID) :
  counter ≠ NONE → counter ≠ ALL →
  stat_range !! Z.to_nat (to_int counter - 1) = Some (to_int counter).
Proof. intros HN HA. destruct counter; done. Qed.

(** The loop of [timerStart(ALL)]: one reading per index, in order. *)
Lemma foldl_start_at_clock (l : list Z) :
  ∀ a clk, (foldl start_at (a, clk) l).2
           = MkClock (reading clk) (ticks clk + length l).
Proof.
  induction l as [|j l IH]; intros a clk; simpl.
  - by rewrite Nat.add_0_r; destruct clk.
  - unfold start_at at 2. simpl. rewrite IH. simpl. f_equal. lia.
Qed.

Lemma foldl_start_at_frame (l : list Z) (ii : Z) :
  ii ∉ l → ∀ a clk, (foldl start_at (a, clk) l).1 ii = a ii.
Proof.
  induction l as [|j l IH]; intros Hnin a clk; simpl; [done|].
  apply not_elem_of_cons in Hnin as [Hne Hnin].
  unfold start_at at 2. simpl. rewrite IH by done.
  by rewrite fn_lookup_insert_ne.
Qed.

Lemma foldl_start_at_lookup (l : list Z) :
  ∀ a clk k ii, NoDup l → l !! k = Some ii →
    (foldl start_at (a, clk) l).1 ii = reading clk (ticks clk + k).
Proof.
  induction l as [|j l IH]; intros a clk k ii Hnd Hk; [done|].
  apply NoDup_cons in Hnd as [Hj Hnd]. simpl. unfold start_at at 2. simpl.
  destruct k as [|k]; simpl in Hk.
  - injection Hk as ->. rewrite foldl_start_at_frame by done.
    by rewrite fn_lookup_insert, Nat.add_0_r.
  - rewrite (IH _ _ k ii) by done. simpl. f_equal. lia.
Qed.

(** The loop of [timerEnd(ALL)]. *)
Lemma foldl_end_at_clock (starts : Z → time_point) (l : list Z) :
  ∀ a clk, (foldl (end_at starts) (a, clk) l).2
           = MkClock (reading clk) (ticks clk + length l).
Proof.
  induction l as [|j l IH]; intros a clk; simpl.
  - by rewrite Nat.add_0_r; destruct clk.
  - unfold end_at at 2. simpl. rewrite IH. simpl. f_equal. lia.
Qed.

Lemma foldl_end_at_frame (starts : Z → time_point) (l : list Z) (ii : Z) :
  ii ∉ l → ∀ a clk, (foldl (end_at starts) (a, clk) l).1 ii = a ii.
Proof.
  induction l as [|j l IH]; intros Hnin a clk; simpl; [done|].
  apply not_elem_of_cons in Hnin as [Hne Hnin].
  unfold end_at at 2. simpl. rewrite IH by done.
  by rewrite fn_lookup_insert_ne.
Qed.

Lemma foldl_end_at_lookup (starts : Z → time_point) (l : list Z) :
  ∀ a clk k ii, NoDup l → l !! k = Some ii →
    (foldl (end_at starts) (a, clk) l).1 ii
    = (a ii + elapsed (starts ii) (reading clk (ticks clk + k)))%float.
Proof.
  induction l as [|j l IH]; intros a clk k ii Hnd Hk; [done|].
  apply NoDup_cons in Hnd as [Hj Hnd]. simpl. unfold end_at at 2. simpl.
  destruct k as [|k]; simpl in Hk.
  - injection Hk as ->. rewrite foldl_end_at_frame by done.
    by rewrite fn_lookup_insert, Nat.add_0_r.
  - rewrite (IH _ _ k ii) by done. simpl.
    rewrite fn_lookup_insert_ne
      by (intros ->; apply Hj; by eapply list_elem_of_lookup_2).
    do 3 f_equal. lia.
Qed.

Lemma to_int_bounds (ID : StatID) : 0 ≤ to_int ID ≤ 6.
Proof. destruct ID; simpl; lia. Qed.

Lemma to_int_ALL (ID : StatID) : to_int ID = 6 ↔ ID = ALL.
Proof. destruct ID; simpl; split; (lia || done). Qed.

(** No call writes a slot outside the five counters and slot [0]. *)
Lemma step_frame (w : t * Clock) (c : call) (ii : Z) :
  ¬ (0 ≤ ii < 6) →
  dataArray (step w c).1 ii = dataArray w.1 ii
  ∧ startTimeArray (step w c).1 ii = startTimeArray w.1 ii.
Proof.
  intros Hii.
  assert (Hout : ii ∉ stat_range) by (rewrite stat_range_elem_of; lia).
  assert (Hid : ∀ ID, ID ≠ ALL → to_int ID ≠ ii).
  { intros ID HA Heq. pose proof (to_int_bounds ID).
    assert (to_int ID ≠ 6) by (intros H6; by apply HA, to_int_ALL). lia. }
  destruct w as [s clk], c as [ID|ID incr|ID|ID]; cbn [step fst snd].
  - split; [|unfold reset; by destruct (decide (ID ≠ ALL))].
    destruct (decide (ID = ALL)) as [->|HA].
    + rewrite reset_ALL_dataArray. by rewrite decide_False.
    + unfold reset. rewrite decide_True by done. simpl.
      by rewrite fn_lookup_insert_ne by (by apply Hid).
  - split; [|done]. rewrite increment_dataArray.
    by rewrite (bool_decide_eq_false_2 _ Hout).
  - unfold timerStart. destruct (decide (ID ≠ ALL)) as [HA|HA].
    + unfold start_at. simpl. split; [done|].
      by rewrite fn_lookup_insert_ne by (by apply Hid).
    + pose proof (foldl_start_at_frame stat_range ii Hout (startTimeArray s) clk).
      destruct (foldl start_at (startTimeArray s, clk) stat_range). simpl in *.
      done.
  - unfold timerEnd. destruct (decide (ID ≠ ALL)) as [HA|HA].
    + unfold end_at. simpl. split; [|done].
      by rewrite fn_lookup_insert_ne by (by apply Hid).
    + pose proof (foldl_end_at_frame (startTimeArray s) stat_range ii Hout
                    (dataArray s) clk).
      destruct (foldl (end_at (startTimeArray s)) (dataArray s, clk) stat_range).
      simpl in *. done.
Qed.

End StatsLoops.

Section StatsExtras.

Import Cxx SyncStats.

Lemma construct_dataArray (uninit : Z → double) (ii : Z) :
  dataArray (construct uninit) ii
  = if decide (ii ∈ stat_range) then 0%float else uninit ii.
Proof.
  unfold construct. cbn [dataArray].
  rewrite (foldl_slots _ (λ _ _, 0%float)); [done | | apply stat_range_NoDup].
  intros a j i. unfold insert, fn_insert. by destruct (decide (j = i)).
Qed.

(** A new [SyncStats] reads zero in its five counters and in
    [totalTime()], whatever the memory it is built in held, and its start
    times are the clock's epoch. The slots of [NONE] and [ALL] are not
    initialised: [getStat(NONE)] and [getStat(ALL)] return what the memory
    held. *)
Theorem construct_counters (uninit : Z → double) :
  (∀ counter, counter ≠ NONE → counter ≠ ALL →
     getStat (construct uninit) counter = 0%float)
  ∧ totalTime (construct uninit) = 0%float
  ∧ getStat (construct uninit) NONE = uninit 0
  ∧ getStat (construct uninit) ALL = uninit 6
  ∧ (∀ ii, startTimeArray (construct uninit) ii = 0).
Proof.
  assert (Hzero : ∀ counter, counter ≠ NONE → counter ≠ ALL →
            getStat (construct uninit) counter = 0%float).
  { intros counter HN HA. unfold getStat. rewrite construct_dataArray.
    by rewrite decide_True by (by apply to_int_range). }
  by split_and!.
Qed.

(** Whatever calls are made, no slot outside the five counters and slot
    [0] is written, in either array: every write stays inside the arrays,
    and the slot of [ALL] keeps what it held, so that [getStat(ALL)]
    returns the same value before and after any sequence of calls. *)
Theorem calls_write_inside (w : t * Clock) (calls : list call) :
  (∀ ii, ¬ (0 ≤ ii < 6) →
     dataArray (Usage.after_calls w calls).1 ii = dataArray w.1 ii
     ∧ startTimeArray (Usage.after_calls w calls).1 ii = startTimeArray w.1 ii)
  ∧ getStat (Usage.after_calls w calls).1 ALL = getStat w.1 ALL.
Proof.
  assert (H : ∀ ii, ¬ (0 ≤ ii < 6) →
     dataArray (Usage.after_calls w calls).1 ii = dataArray w.1 ii
     ∧ startTimeArray (Usage.after_calls w calls).1 ii = startTimeArray w.1 ii).
  { intros ii Hii. unfold Usage.after_calls. revert w.
    induction calls as [|c calls IH]; intros w; simpl; [done|].
    destruct (IH (step w c)) as [IH1 IH2].
    destruct (step_frame w c ii Hii) as [H1 H2].
    by rewrite IH1, IH2, H1, H2. }
  split; [done|]. unfold getStat. apply H. simpl. lia.
Qed.

(** The start times change in [timerStart] only. *)
Lemma step_startTimeArray (w : t * Clock) (c : call) :
  (∀ timerID, c ≠ CallTimerStart timerID) →
  startTimeArray (step w c).1 = startTimeArray w.1.
Proof.
  intros Hc. destruct w as [s clk], c as [ID|ID incr|ID|ID]; cbn [step fst snd].
  - unfold reset. by destruct (decide (ID ≠ ALL)).
  - done.
  - by destruct (Hc ID).
  - unfold timerEnd. destruct (decide (ID ≠ ALL)).
    + by unfold end_at.
    + by destruct (foldl _ _ _).
Qed.

(** [timerEnd] does not ask for a matching [timerStart]. On an object on
    which no timer was started since its construction, whatever other
    calls were made, [timerEnd] of a counter adds to it the time from the
    clock's epoch to now. *)
Theorem timerEnd_without_timerStart (uninit : Z → double) (clk : Clock)
    (calls : list call) (timerID : StatID) :
  Forall (λ c, ∀ id, c ≠ CallTimerStart id) calls →
  timerID ≠ ALL →
  getStat (timerEnd (Usage.after_calls (construct uninit, clk) calls).1 timerID
                    (Usage.after_calls (construct uninit, clk) calls).2).1
          timerID
  = (getStat (Usage.after_calls (construct uninit, clk) calls).1 timerID
     + elapsed 0%Z (SyncMethod.next_reading (Usage.after_calls (construct uninit, clk) calls).2))%float.
Proof.
  intros Hcalls HA.
  assert (Hstart : ∀ w, startTimeArray w.1 = (λ _, 0) →
            startTimeArray (Usage.after_calls w calls).1 = (λ _, 0)).
  { unfold Usage.after_calls. induction Hcalls as [|c calls Hc _ IH];
      intros w Hw; simpl; [done|].
    apply IH. by rewrite step_startTimeArray. }
  specialize (Hstart (construct uninit, clk) eq_refl).
  destruct (Usage.after_calls (construct uninit, clk) calls) as [s clk'].
  simpl in *. unfold timerEnd. rewrite decide_True by done.
  unfold end_at, getStat. simpl. rewrite fn_lookup_insert. by rewrite Hstart.
Qed.

(** An instance: a fresh object, one increment, then [timerEnd] of the
    idle time at the second reading of a clock that starts at 1.7 seconds
    after the epoch. *)
Lemma timerEnd_without_timerStart_witness :
  getStat (timerEnd
             (Usage.after_calls
                (construct (λ _, 0%float), MkClock (λ n, 1700000000 + Z.of_nat n) 1)
                [CallIncrement XMIT 8%float]).1
             IDLE_TIME
             (Usage.after_calls
                (construct (λ _, 0%float), MkClock (λ n, 1700000000 + Z.of_nat n) 1)
                [CallIncrement XMIT 8%float]).2).1
          IDLE_TIME
  = (0 + of_long 1700000 * micro)%float.
Proof.
  apply (timerEnd_without_timerStart (λ _, 0%float)
           (MkClock (λ n, 1700000000 + Z.of_nat n) 1)
           [CallIncrement XMIT 8%float] IDLE_TIME).
  - constructor; [intros id; discriminate | constructor].
  - discriminate.
Defined.

(** [timerStart(ALL)] reads the clock five times and gives the five
    counters five successive readings, in the order of the enumeration; it
    changes no counter and no other start time. *)
Theorem timerStart_ALL (s : t) (clk : Clock) :
  (∀ counter, counter ≠ NONE → counter ≠ ALL →
     startTimeArray (timerStart s ALL clk).1 (to_int counter)
     = reading clk (ticks clk + Z.to_nat (to_int counter - 1)))
  ∧ (∀ ii, ¬ (1 ≤ ii < 6) →
       startTimeArray (timerStart s ALL clk).1 ii = startTimeArray s ii)
  ∧ dataArray (timerStart s ALL clk).1 = dataArray s
  ∧ (timerStart s ALL clk).2 = MkClock (reading clk) (ticks clk + 5).
Proof.
  unfold timerStart. rewrite decide_False by (intros Hk; by apply Hk).
  pose proof (foldl_start_at_clock stat_range (startTimeArray s) clk) as Hclk.
  pose proof (λ ii H, foldl_start_at_frame stat_range ii H (startTimeArray s) clk)
    as Hframe.
  pose proof (foldl_start_at_lookup stat_range (startTimeArray s) clk) as Hlook.
  destruct (foldl start_at (startTimeArray s, clk) stat_range) as [a clk'].
  simpl in *. split_and!; [| | done | done].
  - intros counter HN HA.
    apply Hlook; [apply stat_range_NoDup | by apply stat_range_lookup].
  - intros ii Hii. apply Hframe. by rewrite stat_range_elem_of.
Qed.

(** [timerEnd(ALL)] adds elapsed time to each of the five counters, the
    two byte counters included (which receive seconds, not rounded): each
    counter gets the time from its own start to its own reading of the
    clock, five successive readings in the order of the enumeration. The
    start times and the other slots are left alone. *)
Theorem timerEnd_ALL (s : t) (clk : Clock) :
  (∀ counter, counter ≠ NONE → counter ≠ ALL →
     getStat (timerEnd s ALL clk).1 counter
     = (getStat s counter
        + elapsed (startTimeArray s (to_int counter))
                  (reading clk (ticks clk + Z.to_nat (to_int counter - 1))))%float)
  ∧ (∀ ii, ¬ (1 ≤ ii < 6) →
       dataArray (timerEnd s ALL clk).1 ii = dataArray s ii)
  ∧ startTimeArray (timerEnd s ALL clk).1 = startTimeArray s
  ∧ (timerEnd s ALL clk).2 = MkClock (reading clk) (ticks clk + 5).
Proof.
  unfold timerEnd. rewrite decide_False by (intros Hk; by apply Hk).
  pose proof (foldl_end_at_clock (startTimeArray s) stat_range (dataArray s) clk)
    as Hclk.
  pose proof (λ ii H, foldl_end_at_frame (startTimeArray s) stat_range ii H
                        (dataArray s) clk) as Hframe.
  pose proof (foldl_end_at_lookup (startTimeArray s) stat_range (dataArray s) clk)
    as Hlook.
  destruct (foldl (end_at (startTimeArray s)) (dataArray s, clk) stat_range)
    as [a clk'].
  simpl in *. split_and!; [| | done | done].
  - intros counter HN HA. unfold getStat. simpl.
    apply Hlook; [apply stat_range_NoDup | by apply stat_range_lookup].
  - intros ii Hii. apply Hframe. by rewrite stat_range_elem_of.
Qed.

End StatsExtras.

Section IncrementExtras.

Import Cxx SyncStats.

Local Ltac slots :=
  rewrite !increment_dataArray;
  repeat case_bool_decide; simpl; try done;
  repeat match goal with
         | H : _ ∈ stat_range |- _ => apply stat_range_elem_of in H
         | H : _ ∉ stat_range |- _ => rewrite stat_range_elem_of in H
         end;
  simpl in *; try lia; try congruence.

(** [increment] with the id [NONE] changes nothing, and with the id [ALL]
    it does to every slot what the five increments of the single
    counters, one after the other, do. *)
Theorem increment_NONE_and_ALL (s : t) (incr : double) :
  (∀ ii, dataArray (increment s NONE incr) ii = dataArray s ii)
  ∧ (∀ ii, dataArray (increment s ALL incr) ii
           = dataArray
               (increment
                  (increment
                     (increment
                        (increment (increment s XMIT incr) RECV incr)
                        COMM_TIME incr)
                     IDLE_TIME incr)
                  COMP_TIME incr) ii).
Proof.
  split; intros ii; slots.
Qed.

(** Increments of two different counters can be made in either order. *)
Theorem increment_commute (s : t) (id1 id2 : StatID) (x y : double) :
  id1 ≠ id2 → id1 ≠ ALL → id2 ≠ ALL →
  ∀ ii, dataArray (increment (increment s id1 x) id2 y) ii
        = dataArray (increment (increment s id2 y) id1 x) ii.
Proof.
  intros Hne H1 H2 ii.
  assert (to_int id1 ≠ to_int id2) by (intros Heq; by apply Hne, to_int_inj).
  slots.
Qed.

(** An instance: received bytes and idle time. *)
Lemma increment_commute_witness :
  getStat (increment (increment Examples.stats0 RECV 2.5%float) IDLE_TIME 0.25%float)
          RECV
  = getStat (increment (increment Examples.stats0 IDLE_TIME 0.25%float) RECV 2.5%float)
            RECV.
Proof.
  apply (increment_commute Examples.stats0 RECV IDLE_TIME 2.5%float 0.25%float);
    discriminate.
Defined.

End IncrementExtras.

(** ** More on the scoped timer *)

Section TimerExtras.

Import Cxx SyncStats SyncMethod.

(** A timed block of one counter, written out. *)
Lemma timed_block_one {A E : Type} (timerID : StatID) (body : block A E)
    (w : SyncMethod.t * Clock) :
  timerID ≠ ALL →
  body_entry timerID w
  = (SyncMethod.Mk
       (SyncStats.Mk (dataArray (mySyncStats w.1))
          (<[to_int timerID := next_reading w.2]> (startTimeArray (mySyncStats w.1))))
       (elements w.1),
     MkClock (reading w.2) (S (ticks w.2)))
  ∧ timed_block timerID body w
    = ((body_exit timerID body w).1,
       (SyncMethod.Mk
          (SyncStats.Mk
             (<[to_int timerID :=
                  (dataArray (mySyncStats (body_exit timerID body w).2.1) (to_int timerID)
                   + elapsed
                       (startTimeArray (mySyncStats (body_exit timerID body w).2.1)
                                       (to_int timerID))
                       (next_reading (body_exit timerID body w).2.2))%float]>
                (dataArray (mySyncStats (body_exit timerID body w).2.1)))
             (startTimeArray (mySyncStats (body_exit timerID body w).2.1)))
          (elements (body_exit timerID body w).2.1),
        MkClock (reading (body_exit timerID body w).2.2)
                (S (ticks (body_exit timerID body w).2.2)))).
Proof.
  intros Hne.
  unfold timed_block, body_exit, body_entry.
  unfold localTimer, TimerWarp_construct, TimerWarp_destruct.
  rewrite timerStart_one by done. cbn [snd fst SyncMethod.timerID].
  split; [done|].
  destruct (body _) as [r [sm2 clk2]]. cbn [snd fst].
  by rewrite timerEnd_one by done.
Qed.

(** Two timed blocks of the same counter, one inside the other, share the
    counter's one start time: the inner block overwrites it. Both exits
    then measure from the entry of the inner block: the counter receives
    the time of the inner block and, on top, the time from the inner entry
    to the outer exit, and the time between the two entries is counted
    nowhere. The body itself does not restart the timer. *)
Theorem timed_block_nested_same {A E : Type} (timerID : StatID)
    (body : block A E) (w : SyncMethod.t * Clock) :
  timerID ≠ ALL →
  startTimeArray
    (mySyncStats (body_exit timerID body (body_entry timerID w)).2.1)
    (to_int timerID)
  = startTimeArray (mySyncStats (body_entry timerID (body_entry timerID w)).1)
                   (to_int timerID) →
  (timed_block timerID (timed_block timerID body) w).1
  = (body_exit timerID body (body_entry timerID w)).1
  ∧ getStat (mySyncStats (timed_block timerID (timed_block timerID body) w).2.1)
            timerID
    = (getStat (mySyncStats (body_exit timerID body (body_entry timerID w)).2.1)
               timerID
       + elapsed (next_reading (body_entry timerID w).2)
                 (next_reading (body_exit timerID body (body_entry timerID w)).2.2)
       + elapsed (next_reading (body_entry timerID w).2)
                 (reading (body_exit timerID body (body_entry timerID w)).2.2
                    (S (ticks (body_exit timerID body (body_entry timerID w)).2.2))))%float.
Proof.
  intros Hne Hslot.
  destruct (timed_block_one timerID (timed_block timerID body) w Hne)
    as [Hentry Houter].
  destruct (timed_block_one timerID body (body_entry timerID w) Hne)
    as [Hentry' Hinner].
  rewrite Houter.
  change (body_exit timerID (timed_block timerID body) w)
    with (timed_block timerID body (body_entry timerID w)).
  rewrite Hinner. rewrite Hentry' in Hslot.
  set (X := body_exit timerID body (body_entry timerID w)) in *.
  cbn [fst snd mySyncStats elements dataArray startTimeArray reading ticks] in *.
  rewrite fn_lookup_insert in Hslot. rewrite Hslot.
  unfold getStat. cbn [dataArray]. rewrite !fn_lookup_insert.
  split; [done|]. unfold next_reading at 3. done.
Qed.

(** An instance: the clock advances by a microsecond and a half per
    reading and the body reads it twice. The outer block lasts seven whole
    microseconds and the inner one four; the counter receives four and then
    six. *)
Lemma timed_block_nested_same_witness :
  getStat
    (mySyncStats
       (timed_block COMM_TIME (timed_block COMM_TIME Examples.failing_body)
          (Examples.holding [Examples.p1], Examples.clock0)).2.1)
    COMM_TIME
  = (0 + of_long 4 * micro + of_long 6 * micro)%float
  ∧ elapsed_microseconds 0 7500 = 7.
Proof.
  destruct (timed_block_nested_same COMM_TIME Examples.failing_body
              (Examples.holding [Examples.p1], Examples.clock0))
    as [_ Hstat]; [discriminate | reflexivity |].
  split; [exact Hstat | reflexivity].
Defined.

(** Two timed blocks of different counters, one inside the other, do not
    disturb each other: each counter receives the time between the entry
    and the exit of its own block. The body itself restarts neither
    timer. *)
Theorem timed_block_nested_other {A E : Type} (outer inner : StatID)
    (body : block A E) (w : SyncMethod.t * Clock) :
  outer ≠ inner → outer ≠ ALL → inner ≠ ALL →
  (∀ timerID, timerID = outer ∨ timerID = inner →
     startTimeArray
       (mySyncStats (body_exit inner body (body_entry outer w)).2.1)
       (to_int timerID)
     = startTimeArray (mySyncStats (body_entry inner (body_entry outer w)).1)
                      (to_int timerID)) →
  (timed_block outer (timed_block inner body) w).1
  = (body_exit inner body (body_entry outer w)).1
  ∧ getStat (mySyncStats (timed_block outer (timed_block inner body) w).2.1) inner
    = (getStat (mySyncStats (body_exit inner body (body_entry outer w)).2.1) inner
       + elapsed (next_reading (body_entry outer w).2)
                 (next_reading (body_exit inner body (body_entry outer w)).2.2))%float
  ∧ getStat (mySyncStats (timed_block outer (timed_block inner body) w).2.1) outer
    = (getStat (mySyncStats (body_exit inner body (body_entry outer w)).2.1) outer
       + elapsed (next_reading w.2)
                 (reading (body_exit inner body (body_entry outer w)).2.2
                    (S (ticks (body_exit inner body (body_entry outer w)).2.2))))%float.
Proof.
  intros Hne Ho Hi Hslot.
  assert (Hidx : to_int outer ≠ to_int inner)
    by (intros Heq; by apply Hne, to_int_inj).
  destruct (timed_block_one outer (timed_block inner body) w Ho)
    as [Hentry Houter].
  destruct (timed_block_one inner body (body_entry outer w) Hi)
    as [Hentry' Hinner].
  pose proof (Hslot outer (or_introl eq_refl)) as Hso.
  pose proof (Hslot inner (or_intror eq_refl)) as Hsi.
  rewrite Houter.
  change (body_exit outer (timed_block inner body) w)
    with (timed_block inner body (body_entry outer w)).
  rewrite Hinner. rewrite Hentry' in Hso, Hsi.
  set (X := body_exit inner body (body_entry outer w)) in *.
  cbn [fst snd mySyncStats elements dataArray startTimeArray reading ticks] in *.
  rewrite fn_lookup_insert in Hsi.
  rewrite fn_lookup_insert_ne in Hso by done.
  rewrite Hentry in Hso.
  cbn [fst snd mySyncStats elements dataArray startTimeArray reading ticks] in Hso.
  rewrite fn_lookup_insert in Hso.
  rewrite Hso. unfold getStat. cbn [dataArray].
  rewrite fn_lookup_insert.
  rewrite (fn_lookup_insert_ne _ (to_int outer) (to_int inner)) by done.
  rewrite fn_lookup_insert.
  rewrite (fn_lookup_insert_ne _ (to_int inner) (to_int outer)) by done.
  rewrite Hsi. split_and!; try done.
Qed.

(** An instance with the clock and the body of the previous one: the
    computation time inside the communication time. *)
Lemma timed_block_nested_other_witness :
  getStat
    (mySyncStats
       (timed_block COMM_TIME (timed_block COMP_TIME Examples.failing_body)
          (Examples.holding [Examples.p1], Examples.clock0)).2.1)
    COMP_TIME
  = (0 + of_long 4 * micro)%float
  ∧ getStat
      (mySyncStats
         (timed_block COMM_TIME (timed_block COMP_TIME Examples.failing_body)
            (Examples.holding [Examples.p1], Examples.clock0)).2.1)
      COMM_TIME
    = (0 + of_long 7 * micro)%float.
Proof.
  destruct (timed_block_nested_other COMM_TIME COMP_TIME Examples.failing_body
              (Examples.holding [Examples.p1], Examples.clock0))
    as (_ & Hin & Hout); [discriminate | discriminate | discriminate | |].
  - intros timerID [-> | ->]; reflexivity.
  - split; [exact Hin | exact Hout].
Defined.

(** A derived method that calls the base class's [SyncClient] inside a
    timed block loses nothing of that block: the call puts the counters
    to zero but keeps the start times, so at the exit the timed counter is
    the time of the block, added to zero, and every other counter is
    zero. *)
Theorem timed_SyncClient {Communicant E : Type}
    (resetCommCounters : Communicant → Communicant) (comm : Communicant)
    (selfMinusOther otherMinusSelf : list shared_ptr)
    (timerID : StatID) (w : SyncMethod.t * Clock) :
  timerID ≠ ALL → timerID ≠ NONE →
  getStat
    (mySyncStats
       (timed_block timerID
          (Usage.SyncClient_block (E := E) resetCommCounters comm
             selfMinusOther otherMinusSelf) w).2.1)
    timerID
  = (0 + elapsed (next_reading w.2) (reading w.2 (S (ticks w.2))))%float
  ∧ (∀ counter, counter ≠ NONE → counter ≠ ALL → counter ≠ timerID →
       getStat
         (mySyncStats
            (timed_block timerID
               (Usage.SyncClient_block (E := E) resetCommCounters comm
                  selfMinusOther otherMinusSelf) w).2.1)
         counter = 0%float)
  ∧ elements
      (timed_block timerID
         (Usage.SyncClient_block (E := E) resetCommCounters comm
            selfMinusOther otherMinusSelf) w).2.1
    = elements w.1.
Proof.
  intros HA HN.
  destruct (timed_block_one timerID
              (Usage.SyncClient_block (E := E) resetCommCounters comm
                 selfMinusOther otherMinusSelf) w HA) as [Hentry Hblock].
  rewrite Hblock. unfold body_exit. rewrite Hentry.
  unfold Usage.SyncClient_block, SyncClient.
  cbn [fst snd self mySyncStats elements reading ticks next_reading].
  assert (Hstart : ∀ s, startTimeArray (reset s ALL) = startTimeArray s)
    by (intros s; unfold reset; by destruct (decide (ALL ≠ ALL))).
  assert (Hzero : ∀ s counter, counter ≠ NONE → counter ≠ ALL →
            dataArray (reset s ALL) (to_int counter) = 0%float).
  { intros s counter HN' HA'. rewrite reset_ALL_dataArray.
    by rewrite decide_True by (by apply to_int_range). }
  unfold getStat. cbn [dataArray startTimeArray].
  rewrite Hstart. cbn [startTimeArray].
  rewrite !fn_lookup_insert, Hzero by done.
  split_and!; [done | | done].
  intros counter HN' HA' Hne.
  rewrite fn_lookup_insert_ne by (intros Heq; by apply Hne; symmetry; apply to_int_inj).
  by apply Hzero.
Qed.

(** An instance: a session on a used object, timed as communication. *)
Lemma timed_SyncClient_witness :
  getStat
    (mySyncStats
       (timed_block COMM_TIME
          (Usage.SyncClient_block (E := string) Examples.resetBytes
             (Examples.MkByteCounters 10 20) [] [])
          (SyncMethod.Mk (increment Examples.stats0 ALL 2.5%float) [Examples.p1],
           Examples.clock0)).2.1)
    COMM_TIME
  = (0 + of_long 1 * micro)%float.
Proof.
  destruct (timed_SyncClient (E := string) Examples.resetBytes
              (Examples.MkByteCounters 10 20) [] [] COMM_TIME
              (SyncMethod.Mk (increment Examples.stats0 ALL 2.5%float) [Examples.p1],
               Examples.clock0))
    as [Hstat _]; [discriminate | discriminate |].
  exact Hstat.
Defined.

End TimerExtras.
